(** * Location_Tracker: the ingestion, broadcast and query paths of
    [src/API/server.js] with the schema of its database module.

    Modelling choices, shared by the whole file:
    - A JavaScript number is a double.  The string conversion of Joi rounds
      to binary64 and prints with Number::toString, both written out below;
      a double is represented by the rational of the decimal that
      Number::toString prints for it (the shortest one that rounds back to
      it), which is also the SQL literal the driver sends.  A JSON number
      of the body is the double [JSON.parse] produced; a literal too large
      for a double (parsed as Infinity) is outside the model.  [Number()]
      of the history route is taken exactly.
    - A parsed JSON body is a [json] value; an object is the list of its
      own properties in insertion order (JavaScript objects have unique
      keys, so the first binding of a key is its value).  Strings are ASCII.
    - The database is the committed state of the two tables; a request
      runs alone (InnoDB serialises the writes of one worker), and only a
      [COMMIT] replaces the committed state.  Every statement of the
      transaction may fail: the failures are an oracle of the request's
      environment, as are the loss of the connection (then [rollback()]
      rejects, and the server discards the open transaction), a [COMMIT]
      that the server executed although its acknowledgement was lost, the
      clock reads of [NOW()] (seconds) and the Node.js clock
      ([new Date().toISOString()]).  The oracle may combine these freely,
      also in ways a real connection would not.
    - [wss.clients] holds the OPEN and the CLOSING sockets; [ws] removes a
      socket on its ['close'] event.
    - [ORDER BY recorded_at DESC] leaves rows with equal timestamps in an
      unspecified order: the history read is a relation. *)

From Stdlib Require Import ZArith QArith Qabs Qreduction List String Ascii Bool.
From Stdlib Require Import Permutation Sorted Lia.
Import ListNotations.

Open Scope Z_scope.
Set Warnings "-register-all".

(** ** JSON values and JavaScript numbers *)

Inductive json : Type :=
| JNull
| JBool (b : bool)
| JNum (q : Q)
| JStr (s : string)
| JArr (xs : list json)
| JObj (fields : list (string * json)).

(** [obj[key]] on a parsed JSON object. *)
Definition lookup (key : string) (fields : list (string * json)) : option json :=
  match find (fun p => String.eqb (fst p) key) fields with
  | Some (_, v) => Some v
  | None => None
  end.

(** A JavaScript number value. *)
Inductive jsnum : Type :=
| NaN
| PosInf
| NegInf
| Fin (q : Q).

(** JavaScript truthiness of a number: [0] and [NaN] are falsy. *)
Definition truthy (x : jsnum) : bool :=
  match x with
  | NaN => false
  | Fin q => negb (Qeq_bool q 0)
  | PosInf | NegInf => true
  end.

(** [Math.min(x, y)]. *)
Definition js_min (x y : jsnum) : jsnum :=
  match x, y with
  | NaN, _ | _, NaN => NaN
  | NegInf, _ | _, NegInf => NegInf
  | PosInf, _ => y
  | _, PosInf => x
  | Fin a, Fin b => if Qle_bool a b then Fin a else Fin b
  end.

(** *** String to number conversion (ECMAScript StringToNumber) *)

Definition is_space (c : ascii) : bool :=
  match nat_of_ascii c with
  | 9%nat | 10%nat | 11%nat | 12%nat | 13%nat | 32%nat => true
  | _ => false
  end.

Fixpoint drop_space (l : list ascii) : list ascii :=
  match l with
  | c :: r => if is_space c then drop_space r else l
  | [] => []
  end.

Definition trim (l : list ascii) : list ascii := rev (drop_space (rev (drop_space l))).

Definition digit_val (base : Z) (c : ascii) : option Z :=
  let n := Z.of_nat (nat_of_ascii c) in
  let d := if (48 <=? n) && (n <=? 57) then Some (n - 48)
           else if (97 <=? n) && (n <=? 122) then Some (n - 87)
           else if (65 <=? n) && (n <=? 90) then Some (n - 55)
           else None in
  match d with
  | Some k => if k <? base then Some k else None
  | None => None
  end.

(** The longest prefix of decimal digits, and the rest. *)
Fixpoint span_digits (l : list ascii) : list Z * list ascii :=
  match l with
  | c :: r =>
      match digit_val 10 c with
      | Some d => let (ds, rest) := span_digits r in (d :: ds, rest)
      | None => ([], l)
      end
  | [] => ([], [])
  end.

(** All characters are digits of [base]. *)
Fixpoint all_digits (base : Z) (l : list ascii) : option (list Z) :=
  match l with
  | [] => Some []
  | c :: r =>
      match digit_val base c, all_digits base r with
      | Some d, Some ds => Some (d :: ds)
      | _, _ => None
      end
  end.

Definition digits_value (base : Z) (ds : list Z) : Z :=
  fold_left (fun acc d => acc * base + d) ds 0.

Definition pow10 (e : Z) : Q :=
  if 0 <=? e then inject_Z (10 ^ e) else Qinv (inject_Z (10 ^ (- e))).

(** ExponentPart after the [e]: [+|-]? digits. *)
Definition parse_exponent (l : list ascii) : option Z :=
  let '(sgn, r) :=
    match l with
    | c :: r => if Ascii.eqb c "+"%char then (1, r)
                else if Ascii.eqb c "-"%char then (-1, r)
                else (1, l)
    | [] => (1, l)
    end in
  match span_digits r with
  | ((_ :: _) as ds, []) => Some (sgn * digits_value 10 ds)
  | _ => None
  end.

(** StrUnsignedDecimalLiteral without [Infinity]:
    [digits . digits? exp?], [. digits exp?] or [digits exp?]. *)
Definition parse_unsigned_decimal (l : list ascii) : option Q :=
  let (ip, r1) := span_digits l in
  let (fp, r2) :=
    match r1 with
    | c :: r => if Ascii.eqb c "."%char then span_digits r else ([], r1)
    | [] => ([], [])
    end in
  match ip ++ fp with
  | [] => None
  | ds =>
      let mant := Qmult (inject_Z (digits_value 10 ds)) (pow10 (- Z.of_nat (List.length fp))) in
      match r2 with
      | [] => Some (Qred mant)
      | c :: r =>
          if Ascii.eqb c "e"%char || Ascii.eqb c "E"%char then
            match parse_exponent r with
            | Some x => Some (Qred (Qmult mant (pow10 x)))
            | None => None
            end
          else None
      end
  end.

Definition js_neg (x : jsnum) : jsnum :=
  match x with
  | Fin q => Fin (Qred (Qopp q))
  | PosInf => NegInf
  | NegInf => PosInf
  | NaN => NaN
  end.

Definition unsigned_numeric (l : list ascii) : jsnum :=
  if String.eqb (string_of_list_ascii l) "Infinity" then PosInf
  else match parse_unsigned_decimal l with
       | Some q => Fin q
       | None => NaN
       end.

Definition radix_numeric (base : Z) (l : list ascii) : jsnum :=
  match all_digits base l with
  | Some ((_ :: _) as ds) => Fin (inject_Z (digits_value base ds))
  | _ => NaN
  end.

(** [Number(s)] for a string [s]. *)
Definition js_Number (s : string) : jsnum :=
  let t := trim (list_ascii_of_string s) in
  match t with
  | [] => Fin 0
  | c :: r =>
      if Ascii.eqb c "+"%char then unsigned_numeric r
      else if Ascii.eqb c "-"%char then js_neg (unsigned_numeric r)
      else if Ascii.eqb c "0"%char then
        match r with
        | x :: ds =>
            if Ascii.eqb x "x"%char || Ascii.eqb x "X"%char then radix_numeric 16 ds
            else if Ascii.eqb x "o"%char || Ascii.eqb x "O"%char then radix_numeric 8 ds
            else if Ascii.eqb x "b"%char || Ascii.eqb x "B"%char then radix_numeric 2 ds
            else unsigned_numeric t
        | [] => Fin 0
        end
      else unsigned_numeric t
  end.


(** *** Doubles (IEEE 754 binary64)

    A positive finite double is [m * 2 ^ e] with [0 < m < 2 ^ 53] and
    [-1074 <= e]; a decimal literal denotes the double nearest to its
    exact value, ties to even, or Infinity past the largest double. *)

(** [n / d >= 2 ^ e] for [n, d > 0]. *)
Definition ge_pow2 (n d e : Z) : bool :=
  if 0 <=? e then d * 2 ^ e <=? n else d <=? n * 2 ^ (- e).

(** [floor (log2 (n / d))] for [n, d > 0]. *)
Definition log2_floor (n d : Z) : Z :=
  let l := Z.log2 n - Z.log2 d in
  if ge_pow2 n d l then l else l - 1.

(** [n / d] rounded to an integer, ties to even. *)
Definition round_half_even (n d : Z) : Z :=
  let (qt, rm) := Z.div_eucl n d in
  match Z.compare (2 * rm) d with
  | Lt => qt
  | Gt => qt + 1
  | Eq => if Z.even qt then qt else qt + 1
  end.

(** The double nearest to the positive rational [n / d]: [Some (m, e)]
    for [m * 2 ^ e], [None] when it overflows to Infinity. *)
Definition round_binary64 (n d : Z) : option (Z * Z) :=
  let E := log2_floor n d in
  let qe := Z.max E (-1022) - 52 in
  let m := if 0 <=? qe then round_half_even n (d * 2 ^ qe)
           else round_half_even (n * 2 ^ (- qe)) d in
  if m =? 0 then Some (0, 0)
  else if 1024 <=? Z.log2 m + qe then None else Some (m, qe).

Definition dyadic_Q (m e : Z) : Q :=
  if 0 <=? e then inject_Z (m * 2 ^ e) else Qmake m (Z.to_pos (2 ^ (- e))).

(** The double nearest to a positive rational, as a rational. *)
Definition to_double (q : Q) : option Q :=
  match round_binary64 (Qnum q) (Zpos (Qden q)) with
  | Some (m, e) => Some (dyadic_Q m e)
  | None => None
  end.

Fixpoint ndigits_fuel (fuel : nat) (z : Z) : Z :=
  match fuel with
  | O => 0
  | S f => if z <=? 0 then 0 else 1 + ndigits_fuel f (z / 10)
  end.

(** The number of decimal digits of [z > 0]. *)
Definition ndigits (z : Z) : Z := ndigits_fuel (Z.to_nat (Z.log2 z + 2)) z.

(** [floor (log10 (n / d))] for [n, d > 0]. *)
Definition log10_floor (n d : Z) : Z :=
  let e := ndigits n - ndigits d in
  let ge := if 0 <=? e then d * 10 ^ e <=? n else d <=? n * 10 ^ (- e) in
  if ge then e else e - 1.

(** The decimal [v] is read back as the double [x]. *)
Definition rounds_to (v x : Q) : bool :=
  match to_double v with
  | Some y => Qeq_bool y x
  | None => false
  end.

(** The two [k]-digit decimals [(s, n)], of value [s * 10 ^ (n - k)],
    next to [x > 0]: the one below and the one above. *)
Definition candidates (k : Z) (x : Q) : list (Z * Z) :=
  let n := log10_floor (Qnum x) (Zpos (Qden x)) + 1 in
  let y := Qmult x (pow10 (k - n)) in
  let s_lo := Qnum y / Zpos (Qden y) in
  let hi := if s_lo + 1 =? 10 ^ k then (10 ^ (k - 1), n + 1) else (s_lo + 1, n) in
  [(s_lo, n); hi].

Definition cand_value (k : Z) (c : Z * Z) : Q :=
  Qmult (inject_Z (fst c)) (pow10 (snd c - k)).

(** Of two candidates, the one closer to [x], the even one on a tie. *)
Definition closer (k : Z) (x : Q) (a b : Z * Z) : Z * Z :=
  let da := Qabs (Qminus (cand_value k a) x) in
  let db := Qabs (Qminus (cand_value k b) x) in
  if negb (Qle_bool db da) then a
  else if negb (Qle_bool da db) then b
  else if Z.even (fst a) then a else b.

(** The least [k] with a [k]-digit decimal that reads back as [x], and
    the closest such decimal; 17 digits always suffice. *)
Fixpoint shortest_fuel (fuel : nat) (k : Z) (x : Q) : Z * Z * Z :=
  match fuel with
  | O => (k, 0, 0)
  | S f =>
      match filter (fun c => rounds_to (cand_value k c) x) (candidates k x) with
      | [] => shortest_fuel f (k + 1) x
      | c :: cs => let (s, n) := fold_left (closer k x) cs c in (k, n, s)
      end
  end.

(** Number::toString's [k], [n] and [s] for the positive double [x]. *)
Definition shortest (x : Q) : Z * Z * Z := shortest_fuel 17 1 x.

Definition digit_char (d : Z) : ascii := ascii_of_nat (Z.to_nat (48 + d)).

Fixpoint digits_fuel (fuel : nat) (z : Z) (acc : list ascii) : list ascii :=
  match fuel with
  | O => acc
  | S f => if z <? 10 then digit_char z :: acc
           else digits_fuel f (z / 10) (digit_char (z mod 10) :: acc)
  end.

(** The decimal digits of [z >= 0]. *)
Definition Z_digits (z : Z) : list ascii := digits_fuel (Z.to_nat (Z.log2 z + 2)) z [].

(** Number::toString, steps 6 to 10, for [k], [n] and [s]. *)
Definition format_positive (k n s : Z) : list ascii :=
  let ds := Z_digits s in
  if (k <=? n) && (n <=? 21) then ds ++ repeat "0"%char (Z.to_nat (n - k))
  else if (0 <? n) && (n <=? 21) then
    firstn (Z.to_nat n) ds ++ ["."%char] ++ skipn (Z.to_nat n) ds
  else if (-6 <? n) && (n <=? 0) then
    ["0"%char; "."%char] ++ repeat "0"%char (Z.to_nat (- n)) ++ ds
  else
    let ex := ["e"%char; if 0 <=? n - 1 then "+"%char else "-"%char] ++ Z_digits (Z.abs (n - 1)) in
    if k =? 1 then ds ++ ex
    else firstn 1 ds ++ ["."%char] ++ skipn 1 ds ++ ex.

(** A number as [parseFloat] returns it (NaN is not needed here). *)
Inductive num_value :=
| NumFin (q : Q)
| NumInf (neg : bool).

(** [parseFloat] of a decimal literal of exact value [q]: the double, as
    its exact dyadic value. *)
Definition parse_float (q : Q) : num_value :=
  match Qnum q with
  | Z0 => NumFin 0
  | Zpos _ => match to_double q with Some y => NumFin y | None => NumInf false end
  | Zneg _ => match to_double (Qopp q) with Some y => NumFin (Qopp y) | None => NumInf true end
  end.

(** [String(x)]. *)
Definition js_to_string (x : num_value) : list ascii :=
  match x with
  | NumInf false => list_ascii_of_string "Infinity"
  | NumInf true => list_ascii_of_string "-Infinity"
  | NumFin q =>
      match Qnum q with
      | Z0 => ["0"%char]
      | Zpos _ => let '(k, n, s) := shortest q in format_positive k n s
      | Zneg _ => let '(k, n, s) := shortest (Qopp q) in "-"%char :: format_positive k n s
      end
  end.

(** The rational that [String(x)] prints for the double [x]. *)
Definition double_value (x : Q) : Q :=
  match Qnum x with
  | Z0 => 0
  | Zpos _ => let '(k, n, s) := shortest x in Qred (Qmult (inject_Z s) (pow10 (n - k)))
  | Zneg _ => let '(k, n, s) := shortest (Qopp x) in Qred (Qopp (Qmult (inject_Z s) (pow10 (n - k))))
  end.

(** The number in the representation of this file. *)
Definition js_value (x : num_value) : num_value :=
  match x with
  | NumFin y => NumFin (double_value y)
  | NumInf b => NumInf b
  end.

(** *** The string helpers of Joi's number type *)

Definition is_digit (c : ascii) : bool :=
  let n := nat_of_ascii c in (Nat.leb 48 n && Nat.leb n 57)%bool.

Definition is_e (c : ascii) : bool := (Ascii.eqb c "e"%char || Ascii.eqb c "E"%char)%bool.

Definition ascii_list_eqb (a b : list ascii) : bool :=
  String.eqb (string_of_list_ascii a) (string_of_list_ascii b).

(** [.replace(/\.0*$/, '')]: from the first dot followed by zeros only. *)
Fixpoint strip_dot_zeros (l : list ascii) : list ascii :=
  match l with
  | [] => []
  | c :: r => if Ascii.eqb c "."%char && forallb (Ascii.eqb "0"%char) r then []
              else c :: strip_dot_zeros r
  end.

Fixpoint drop_zeros (l : list ascii) : list ascii :=
  match l with
  | c :: r => if Ascii.eqb c "0"%char then drop_zeros r else l
  | [] => []
  end.

(** [.replace(/0+$/, '')] *)
Definition strip_trailing_zeros (l : list ascii) : list ascii := rev (drop_zeros (rev l)).

Fixpoint count_zeros (l : list ascii) : nat :=
  match l with
  | c :: r => if Ascii.eqb c "0"%char then S (count_zeros r) else O
  | [] => O
  end.

(** [internals.normalizeDecimal]. *)
Definition normalize_decimal (str : list ascii) : list ascii :=
  (* .replace(/^\+/, '') *)
  let s1 := match str with c :: r => if Ascii.eqb c "+"%char then r else str | [] => [] end in
  (* .replace(/\.0*$/, '') *)
  let s2 := strip_dot_zeros s1 in
  (* a leading dot, after an optional minus sign, gets a zero, when it is
     the only dot: .replace(/^(-?)\.([^\.]* )$/, '$10.$2') *)
  let s3 := match s2 with
            | c :: r =>
                if Ascii.eqb c "-"%char then
                  match r with
                  | d :: r' => if Ascii.eqb d "."%char && negb (existsb (Ascii.eqb "."%char) r')
                               then "-"%char :: "0"%char :: "."%char :: r' else s2
                  | [] => s2
                  end
                else if Ascii.eqb c "."%char && negb (existsb (Ascii.eqb "."%char) r)
                then "0"%char :: "."%char :: r else s2
            | [] => s2
            end in
  (* .replace(/^(-?)0+([0-9])/, '$1$2'): leading zeros go, the last one
     stays when no digit follows the run *)
  let '(sg, body) := match s3 with
                     | c :: r => if Ascii.eqb c "-"%char then (["-"%char], r) else ([], s3)
                     | [] => ([], s3)
                     end in
  let z := count_zeros body in
  let rest := skipn z body in
  let s4 := match z with
            | O => s3
            | S z' =>
                match rest with
                | d :: _ => if is_digit d then sg ++ rest
                            else match z' with O => s3 | S _ => sg ++ skipn z' body end
                | [] => match z' with O => s3 | S _ => sg ++ skipn z' body end
                end
            end in
  (* if (str.includes('.') && str.endsWith('0')) str = str.replace(/0+$/, '') *)
  let s5 := if existsb (Ascii.eqb "."%char) s4 && Ascii.eqb (last s4 " "%char) "0"%char
            then strip_trailing_zeros s4 else s4 in
  (* if (str === '-0') str = '0' *)
  if ascii_list_eqb s5 ["-"%char; "0"%char] then ["0"%char] else s5.

(** [/[eE][+-]?\d+$/] matches all of [l]. *)
Definition exp_suffix (l : list ascii) : bool :=
  match l with
  | c :: r =>
      is_e c &&
      match r with
      | d :: r' => if Ascii.eqb d "+"%char || Ascii.eqb d "-"%char
                   then negb (Nat.eqb (List.length r') 0) && forallb is_digit r'
                   else forallb is_digit r
      | [] => false
      end
  | [] => false
  end.

(** [.replace(/[eE][+-]?\d+$/, '')] *)
Fixpoint strip_exponent (l : list ascii) : list ascii :=
  match l with
  | [] => []
  | c :: r => if exp_suffix l then [] else c :: strip_exponent r
  end.

(** [(0[.]?)*] at the start, taken greedily. *)
Fixpoint strip_zero_groups (l : list ascii) : list ascii :=
  match l with
  | c :: r =>
      if Ascii.eqb c "0"%char then
        match r with
        | d :: r' => if Ascii.eqb d "."%char then strip_zero_groups r' else strip_zero_groups r
        | [] => []
        end
      else l
  | [] => []
  end.

(** [.replace(/\./, '')] *)
Fixpoint remove_first_dot (l : list ascii) : list ascii :=
  match l with
  | [] => []
  | c :: r => if Ascii.eqb c "."%char then r else c :: remove_first_dot r
  end.

(** [internals.extractSignificantDigits]. *)
Definition significant_digits (value : list ascii) : list ascii :=
  let s1 := strip_exponent value in
  (* .replace(/^[+-]?(0[.]?)*/, '') *)
  let s2 := match s1 with
            | c :: r => if Ascii.eqb c "+"%char || Ascii.eqb c "-"%char
                        then strip_zero_groups r else strip_zero_groups s1
            | [] => []
            end in
  strip_trailing_zeros (remove_first_dot s2).

(** ** Results and the request schema [locationSchema]

    Joi with its defaults: [convert] on (numeric strings become numbers),
    [abortEarly] on (the first error is reported), unknown keys refused.
    The children are checked in the order of the schema, then the unknown
    keys.  [Joi.string().isoDate()] is a parameter of the section: it
    decides the ISO format and returns the converted string. *)

Open Scope string_scope.
Open Scope Z_scope.

Inductive result (A : Type) : Type :=
| Ok (a : A)
| Err (msg : string).
Arguments Ok {A} a.
Arguments Err {A} msg.

Definition rbind {A B : Type} (m : result A) (k : A -> result B) : result B :=
  match m with
  | Ok a => k a
  | Err e => Err e
  end.

Notation "x <- m ;; k" := (rbind m (fun x => k)) (at level 61, m at next level, right associativity).

Definition dq : string := String "034"%char EmptyString.
Definition label (k : string) : string := dq ++ k ++ dq.

Inductive gps := gps_on | gps_off.

Definition gps_string (g : gps) : string :=
  match g with
  | gps_on => "on"
  | gps_off => "off"
  end.

(** The validated [value] of the handler. *)
Record report := {
  employee_id : Z;
  latitude : Q;
  longitude : Q;
  gps_status : gps;
  timestamp : option string
}.

Definition schema_keys : list string :=
  ["employee_id"; "latitude"; "longitude"; "gps_status"; "timestamp"].

(** What the string conversion of [Joi.number()] makes of a string. *)
Inductive coerced :=
| Coerced (x : num_value)   (* the converted number *)
| Unsafe                    (* the error [number.unsafe] *)
| NotNumeric.               (* no match: the value stays a string *)

(** [numberRx], after [value.trim()]: a signed decimal literal
    [[+-]?(\d+(\.\d* )?|\.\d+)(e[+-]?\d+)?], case-insensitive; its exact
    value. *)
Definition joi_number_literal (t : list ascii) : option Q :=
  match t with
  | c :: r =>
      if Ascii.eqb c "+"%char then parse_unsigned_decimal r
      else if Ascii.eqb c "-"%char then
        match parse_unsigned_decimal r with
        | Some q => Some (Qred (Qopp q))
        | None => None
        end
      else parse_unsigned_decimal t
  | [] => None
  end.

(** The [coerce] method of [Joi.number()]: [parseFloat] of the trimmed
    string, refused as unsafe when [String] of the result does not give
    back the digits of the string (compared with
    [extractSignificantDigits] when the string has an exponent, else with
    [normalizeDecimal], unless the result prints with an exponent). *)
Definition joi_coerce_number (s : string) : coerced :=
  let t := trim (list_ascii_of_string s) in
  match joi_number_literal t with
  | None => NotNumeric
  | Some q =>
      let x := parse_float q in
      let printed := js_to_string x in
      let safe :=
        if existsb is_e t then ascii_list_eqb (significant_digits t) (significant_digits printed)
        else existsb is_e printed || ascii_list_eqb printed (normalize_decimal t) in
      if safe then Coerced (js_value x) else Unsafe
  end.

Definition is_integer (q : Q) : bool := (Qden (Qred q) =? 1)%positive.

(** The base check of [Joi.number()] on a finite number: it must lie
    within [Number.MIN_SAFE_INTEGER, Number.MAX_SAFE_INTEGER]. *)
Definition joi_number_base (k : string) (q : Q) : result Q :=
  if Qle_bool (Qabs q) (9007199254740991 # 1) then Ok q
  else Err (label k ++ " must be a safe number").

(** [Joi.number()...required()] on the property [k]. *)
Definition joi_number (k : string) (v : option json) : result Q :=
  match v with
  | None => Err (label k ++ " is required")
  | Some (JNum q) => joi_number_base k q
  | Some (JStr s) =>
      match joi_coerce_number s with
      | Coerced (NumFin q) => joi_number_base k q
      | Coerced (NumInf _) => Err (label k ++ " cannot be infinity")
      | Unsafe => Err (label k ++ " must be a safe number")
      | NotNumeric => Err (label k ++ " must be a number")
      end
  | Some _ => Err (label k ++ " must be a number")
  end.

Definition joi_min (k : string) (lo : Q) (lo_text : string) (q : Q) : result Q :=
  if Qle_bool lo q then Ok q
  else Err (label k ++ " must be greater than or equal to " ++ lo_text).

Definition joi_max (k : string) (hi : Q) (hi_text : string) (q : Q) : result Q :=
  if Qle_bool q hi then Ok q
  else Err (label k ++ " must be less than or equal to " ++ hi_text).

(** [employee_id: Joi.number().integer().min(1).required()] *)
Definition check_employee_id (f : list (string * json)) : result Z :=
  q <- joi_number "employee_id" (lookup "employee_id" f) ;;
  q <- (if is_integer q then Ok q else Err (label "employee_id" ++ " must be an integer")) ;;
  q <- joi_min "employee_id" 1 "1" q ;;
  Ok (Qnum (Qred q)).

(** [latitude: Joi.number().min(-90).max(90).required()] *)
Definition check_latitude (f : list (string * json)) : result Q :=
  q <- joi_number "latitude" (lookup "latitude" f) ;;
  q <- joi_min "latitude" (-90) "-90" q ;;
  joi_max "latitude" 90 "90" q.

(** [longitude: Joi.number().min(-180).max(180).required()] *)
Definition check_longitude (f : list (string * json)) : result Q :=
  q <- joi_number "longitude" (lookup "longitude" f) ;;
  q <- joi_min "longitude" (-180) "-180" q ;;
  joi_max "longitude" 180 "180" q.

(** [gps_status: Joi.string().valid("on", "off").required()] *)
Definition check_gps_status (f : list (string * json)) : result gps :=
  match lookup "gps_status" f with
  | None => Err (label "gps_status" ++ " is required")
  | Some (JStr s) =>
      if String.eqb s "on" then Ok gps_on
      else if String.eqb s "off" then Ok gps_off
      else Err (label "gps_status" ++ " must be one of [on, off]")
  | Some _ => Err (label "gps_status" ++ " must be one of [on, off]")
  end.

(** *** The clone that Joi validates

    [internals.clone] of Joi's object type: [Object.create(proto)] then
    [Object.assign(clone, value)].  The assignment of an own property
    named [__proto__] runs the setter of [Object.prototype]: an object
    (or null) becomes the prototype of the clone, any other value is
    ignored, and the clone never gets such an own property. *)

(** The own properties of the clone. *)
Definition joi_clone_own (f : list (string * json)) : list (string * json) :=
  filter (fun p => negb (String.eqb (fst p) "__proto__")) f.

(** The own properties of its prototype. *)
Definition joi_clone_proto (f : list (string * json)) : list (string * json) :=
  match lookup "__proto__" f with
  | Some (JObj g) => g
  | _ => []
  end.

(** [value[key]] on the clone: its own properties, then those of its
    prototype ([Object.prototype] has no property of the schema). *)
Definition joi_clone (f : list (string * json)) : list (string * json) :=
  joi_clone_own f ++ joi_clone_proto f.

(** A canonical array index: ["0"], or decimal digits without a leading
    zero, below [2 ^ 32 - 1]. *)
Definition array_index (k : string) : option Z :=
  match list_ascii_of_string k with
  | [] => None
  | c :: r =>
      if Ascii.eqb c "0"%char then match r with [] => Some 0 | _ => None end
      else match all_digits 10 (c :: r) with
           | Some ds => let v := digits_value 10 ds in if v <? 4294967295 then Some v else None
           | None => None
           end
  end.

(** The least array index among the keys. *)
Fixpoint least_index_key (f : list (string * json)) : option (Z * string) :=
  match f with
  | [] => None
  | (k, _) :: rest =>
      match array_index k, least_index_key rest with
      | Some v, Some (v', k') => if v' <? v then Some (v', k') else Some (v, k)
      | Some v, None => Some (v, k)
      | None, m => m
      end
  end.

Definition is_schema_key (k : string) : bool := existsb (String.eqb k) schema_keys.

(** The first unknown key in [Object.keys] order (array indices first,
    ascending, then the other keys in insertion order); no key of the
    schema is an array index. *)
Definition unknown_key (own : list (string * json)) : option string :=
  match least_index_key own with
  | Some (_, k) => Some k
  | None =>
      match find (fun p => negb (is_schema_key (fst p))) own with
      | Some (k, _) => Some k
      | None => None
      end
  end.

(** ** The two tables ([ensureSchema])

    [employee_live_location] has the constraint [uniq_emp UNIQUE
    (employee_id)]; [employee_location_history] has no key but its
    auto-increment id.  The surrogate ids are left out. *)

Module Live.
Record row := {
  employee_id : Z;
  latitude : Z;       (* DECIMAL(10,6), in millionths *)
  longitude : Z;
  gps_status : gps;
  last_update : Z     (* TIMESTAMP, in seconds *)
}.
End Live.

Module Hist.
Record row := {
  employee_id : Z;
  latitude : Z;
  longitude : Z;
  gps_status : gps;
  recorded_at : Z
}.
End Hist.

Record store := {
  live : list Live.row;
  history : list Hist.row
}.

(** [INT NOT NULL] under [STRICT_ALL_TABLES]: out of range is an error. *)
Definition int_col (z : Z) : option Z :=
  if (-2147483648 <=? z) && (z <=? 2147483647) then Some z else None.

(** Rounding of an exact value to 6 fractional digits, half away from
    zero, in millionths. *)
Definition round6 (q : Q) : Z :=
  let n := Qnum q * 10 ^ 6 in
  let d := Zpos (Qden q) in
  if 0 <=? n then (2 * n + d) / (2 * d) else - ((2 * (- n) + d) / (2 * d)).

(** [DECIMAL(10,6) NOT NULL]: at most 4 integral digits. *)
Definition dec_10_6 (q : Q) : option Z :=
  let m := round6 q in
  if Z.abs m <=? 9999999999 then Some m else None.

(** The first statement of the transaction:
    [INSERT INTO employee_live_location ... VALUES (?, ?, ?, ?, NOW())
     ON DUPLICATE KEY UPDATE latitude=VALUES(latitude),
     longitude=VALUES(longitude), gps_status=VALUES(gps_status),
     last_update=NOW()]. *)
Definition upsert_live (r : report) (now : Z) (s : store) : option store :=
  match int_col (employee_id r), dec_10_6 (latitude r), dec_10_6 (longitude r) with
  | Some e, Some la, Some lo =>
      if existsb (fun x => Live.employee_id x =? e) (live s) then
        Some {| live := map (fun x =>
                          if Live.employee_id x =? e then
                            {| Live.employee_id := Live.employee_id x;
                               Live.latitude := la; Live.longitude := lo;
                               Live.gps_status := gps_status r; Live.last_update := now |}
                          else x) (live s);
                history := history s |}
      else
        Some {| live := live s ++ [{| Live.employee_id := e; Live.latitude := la;
                                      Live.longitude := lo; Live.gps_status := gps_status r;
                                      Live.last_update := now |}]%list;
                history := history s |}
  | _, _, _ => None
  end.

(** The second statement:
    [INSERT INTO employee_location_history ... VALUES (?, ?, ?, ?, NOW())]. *)
Definition insert_history (r : report) (now : Z) (s : store) : option store :=
  match int_col (employee_id r), dec_10_6 (latitude r), dec_10_6 (longitude r) with
  | Some e, Some la, Some lo =>
      Some {| live := live s;
              history := history s ++ [{| Hist.employee_id := e; Hist.latitude := la;
                                          Hist.longitude := lo; Hist.gps_status := gps_status r;
                                          Hist.recorded_at := now |}]%list |}
  | _, _, _ => None
  end.


(** ** The environment of one request *)

Definition client := nat.

Inductive stmt := Begin | Upsert | Insert | Commit.

Record env := {
  conn_fails : bool;            (* [pool.getConnection()] rejects *)
  fails : stmt -> bool;         (* the statement rejects *)
  rollback_fails : bool;        (* [conn.rollback()] rejects: the connection
                                   is lost, and the server discards the open
                                   transaction *)
  commit_applied : bool;        (* a rejected COMMIT that the server
                                   executed: its acknowledgement was lost *)
  now_upsert : Z;               (* NOW() of the upsert statement *)
  now_insert : Z;               (* NOW() of the history insert *)
  node_iso : string             (* [new Date().toISOString()] *)
}.

(** [await conn.query(...)]: the statement [s] on the transaction's
    state. *)
Definition sql (en : env) (s : stmt) (q : store -> option store) (st : store) : result store :=
  if fails en s then Err "connection error"
  else match q st with
       | Some st' => Ok st'
       | None => Err "ER_WARN_DATA_OUT_OF_RANGE"
       end.

(** ** The server's state: the committed tables and the sockets *)

Record world := {
  db : store;                   (* the committed state of the database *)
  clients : list client;        (* [wss.clients], in insertion order *)
  closing : list client         (* the sockets of [wss.clients] that are
                                   CLOSING; the others are OPEN *)
}.

Definition set_db (w : world) (st : store) : world :=
  {| db := st; clients := clients w; closing := closing w |}.

Definition is_open (w : world) (c : client) : bool :=
  negb (existsb (Nat.eqb c) (closing w)).

(** ** WebSocket fan-out ([broadcast]) *)

Definition location_msg (obj : json) : json :=
  JObj [("type", JStr "location"); ("payload", obj)].

(** [c.send(msg)] of [ws] on a socket of [wss.clients]: an OPEN socket
    queues the frame, a CLOSING one drops it without an exception (there
    is no callback to tell); [send] throws only on a CONNECTING socket,
    and [wss.clients] holds none.  The deliveries made. *)
Definition send (open : client -> bool) (c : client) (msg : json) : result (list (client * json)) :=
  if open c then Ok [(c, msg)] else Ok [].

(** [wss.clients.forEach((c) => { try { c.send(msg); } catch {} })] *)
Fixpoint broadcast_each (open : client -> bool) (cs : list client) (msg : json)
  : list (client * json) :=
  match cs with
  | [] => []
  | c :: cs' =>
      (match send open c msg with
       | Ok d => d
       | Err _ => []
       end ++ broadcast_each open cs' msg)%list
  end.

(** [broadcast(obj)] *)
Definition broadcast (open : client -> bool) (cs : list client) (obj : json) : list (client * json) :=
  broadcast_each open cs (location_msg obj).

(** ** WebSocket connections *)

(** [wss.on("connection", ...)]: [ws] adds the OPEN socket to
    [wss.clients], and the handler greets it with [Date.now()]. *)
Definition hello_msg (ts : Z) : json :=
  JObj [("type", JStr "hello"); ("ts", JNum (inject_Z ts))].

Definition ws_connection (w : world) (c : client) (ts : Z) : world * list (client * json) :=
  ({| db := db w; clients := clients w ++ [c]; closing := closing w |}, [(c, hello_msg ts)]).

(** The socket starts the closing handshake (either side, or [ws] on a
    protocol error): it stays in [wss.clients] as CLOSING. *)
Definition ws_closing (w : world) (c : client) : world :=
  {| db := db w; clients := clients w; closing := c :: closing w |}.

(** Its ['close'] event: [ws] deletes it from [wss.clients]. *)
Definition ws_close (w : world) (c : client) : world :=
  {| db := db w; clients := filter (fun x => negb (Nat.eqb x c)) (clients w);
     closing := filter (fun x => negb (Nat.eqb x c)) (closing w) |}.

(** ** Replies *)

Inductive response :=
| Reply (status : Z) (body : json)
| Rejected.   (* the async handler rejects: Express 5 hands the error to its
                 final handler, which answers 500 with an HTML error page *)

Definition fail_body (m : string) : json :=
  JObj [("success", JBool false); ("error", JStr m)].

Definition payload (r : report) (last_update : string) : json :=
  JObj [("employee_id", JNum (inject_Z (employee_id r)));
        ("latitude", JNum (latitude r));
        ("longitude", JNum (longitude r));
        ("gps_status", JStr (gps_string (gps_status r)));
        ("last_update", JStr last_update)].

Definition success_body (p : json) : json :=
  JObj [("success", JBool true); ("message", JStr "Location updated"); ("data", p)].

(** The statements of the transaction before the [COMMIT]. *)
Definition tx_writes (en : env) (r : report) (st : store) : result store :=
  p0 <- sql en Begin Some st ;;
  p1 <- sql en Upsert (upsert_live r (now_upsert en)) p0 ;;
  sql en Insert (insert_history r (now_insert en)) p1.

(** The [try] block: the committed tables it leaves ([None]: nothing is
    committed, and the open transaction is discarded, by the rollback or
    by the server when the connection is lost) and its outcome, the
    deliveries and the payload or the error that reaches the [catch]. *)
Definition post_try (w : world) (en : env) (r : report)
  : option store * result (list (client * json) * json) :=
  match tx_writes en r (db w) with
  | Err m => (None, Err m)
  | Ok p2 =>
      if fails en Commit then
        ((if commit_applied en then Some p2 else None), Err "connection error")
      else
        let p := payload r (node_iso en) in
        (Some p2, Ok (broadcast (is_open w) (clients w) p, p))
  end.

(** ** [GET /api/locations]: [SELECT ... FROM v_employee_latest], a
    pass-through view over the live table. *)
Definition get_locations (s : store) : list Live.row := live s.

(** ** [GET /api/locations/:employee_id/history] *)

Inductive history_action :=
| Reject                                  (* 400 Invalid employee_id *)
| Query (emp : jsnum) (limit : jsnum).    (* the parameters sent to the store *)

Definition history_action_of (param : string) (qlimit : option string) : history_action :=
  let employee_id := js_Number param in
  let limit := js_min (match qlimit with
                       | Some s => if String.eqb s "" then Fin 500 else js_Number s
                       | None => Fin 500
                       end) (Fin 5000) in
  if negb (truthy employee_id) then Reject else Query employee_id limit.

(** [LIMIT ?] accepts a non-negative integer literal only. *)
Definition limit_count (l : jsnum) : option nat :=
  match l with
  | Fin q => if is_integer q && Qle_bool 0 q then Some (Z.to_nat (Qnum (Qred q))) else None
  | _ => None
  end.

(** [WHERE employee_id = ?]: a finite number compares with the INT
    column; [Infinity] is not a literal and fails. *)
Definition emp_filter (e : jsnum) : option (Hist.row -> bool) :=
  match e with
  | Fin q => Some (fun r => Qeq_bool (inject_Z (Hist.employee_id r)) q)
  | _ => None
  end.

Definition newest_first (l : list Hist.row) : Prop :=
  Sorted (fun a b => Hist.recorded_at b <= Hist.recorded_at a) l.

(** [SELECT ... WHERE employee_id = ? ORDER BY recorded_at DESC LIMIT ?]:
    [None] is an SQL error; rows of equal [recorded_at] come in any
    order. *)
Definition select_history (s : store) (e lim : jsnum) (res : option (list Hist.row)) : Prop :=
  match emp_filter e, limit_count lim with
  | Some m, Some n =>
      exists l, Permutation l (filter m (history s)) /\ newest_first l /\ res = Some (firstn n l)
  | _, _ => res = None
  end.

Inductive history_reply := H400 | H500 | H200 (rows : list Hist.row).

Definition get_history (s : store) (param : string) (qlimit : option string)
  (rep : history_reply) : Prop :=
  match history_action_of param qlimit with
  | Reject => rep = H400
  | Query e l =>
      (select_history s e l None /\ rep = H500) \/
      (exists rows, select_history s e l (Some rows) /\ rep = H200 rows)
  end.

(** ** Rate limiting: [new RateLimiterMemory({ points: 120, duration: 60 })]
    and the middleware that calls [limiter.consume(req.ip)].

    The memory store of the library keeps, per key, the points consumed
    and the expiry of the window; [incrby] adds to a live record (one whose
    expiry is still ahead) and otherwise starts a new window of [duration]
    seconds; [consume] is refused when the consumed points exceed
    [points].  Times are in milliseconds. *)

Record rl_record := {
  consumed : Z;
  expires_at : Z
}.

Definition limiter := string -> option rl_record.

Definition rl_points : Z := 120.
Definition rl_duration_ms : Z := 60 * 1000.

(** [limiter.consume(ip)]: the new store and whether it resolves. *)
Definition consume (st : limiter) (ip : string) (now : Z) : limiter * bool :=
  let r := match st ip with
           | Some e =>
               if 0 <? expires_at e - now
               then {| consumed := consumed e + 1; expires_at := expires_at e |}
               else {| consumed := 1; expires_at := now + rl_duration_ms |}
           | None => {| consumed := 1; expires_at := now + rl_duration_ms |}
           end in
  (fun k => if String.eqb k ip then Some r else st k, negb (rl_points <? consumed r)).

(** The middleware: [None] is [next()], otherwise the 429 reply. *)
Definition rate_limit (st : limiter) (ip : string) (now : Z) : limiter * option response :=
  let (st', ok) := consume st ip now in
  if ok then (st', None)
  else (st', Some (Reply 429 (fail_body "Too many requests"))).

(** Whether the request got past the limiter. *)
Definition handled (rep : response) : bool :=
  match rep with
  | Reply s _ => negb (s =? 429)
  | Rejected => true
  end.

(** Successive requests of one address at the given times. *)
Fixpoint consume_all (st : limiter) (ip : string) (ts : list Z) : list bool :=
  match ts with
  | [] => []
  | t :: ts' => let (st', ok) := consume st ip t in ok :: consume_all st' ip ts'
  end.

(** Interleaved requests of several addresses, in order. *)
Fixpoint consume_seq (st : limiter) (reqs : list (string * Z)) : list bool :=
  match reqs with
  | [] => []
  | (ip, t) :: rest => let (st', ok) := consume st ip t in ok :: consume_seq st' rest
  end.

(** ** [ensureSchema]: four statements on one connection.  DDL commits on
    its own, so the statements before a failing one keep their effect.
    [SET SESSION sql_mode] changes only that connection.  A rejected
    [pool.getConnection()] does nothing, as a failing [SetMode] does. *)

Record catalog := {
  tbl_live : option (list Live.row);      (* employee_live_location *)
  tbl_history : option (list Hist.row);   (* employee_location_history *)
  view_latest : bool                      (* v_employee_latest *)
}.

Inductive ddl := SetMode | CreateLive | CreateHistory | CreateView.

Definition ensure_schema (failing : ddl -> bool) (c : catalog) : catalog * result unit :=
  if failing SetMode then (c, Err "query failed") else
  if failing CreateLive then (c, Err "query failed") else
  (* CREATE TABLE IF NOT EXISTS employee_live_location *)
  let c1 := {| tbl_live := match tbl_live c with Some t => Some t | None => Some [] end;
               tbl_history := tbl_history c; view_latest := view_latest c |} in
  if failing CreateHistory then (c1, Err "query failed") else
  (* CREATE TABLE IF NOT EXISTS employee_location_history *)
  let c2 := {| tbl_live := tbl_live c1;
               tbl_history := match tbl_history c1 with Some t => Some t | None => Some [] end;
               view_latest := view_latest c1 |} in
  if failing CreateView then (c2, Err "query failed") else
  (* CREATE OR REPLACE VIEW v_employee_latest *)
  ({| tbl_live := tbl_live c2; tbl_history := tbl_history c2; view_latest := true |}, Ok tt).

(** The last history record of a worker, in insertion order. *)
Fixpoint latest_record (e : Z) (hs : list Hist.row) : option Hist.row :=
  match hs with
  | [] => None
  | h :: t =>
      match latest_record e t with
      | Some x => Some x
      | None => if Hist.employee_id h =? e then Some h else None
      end
  end.

(** ** Event runs of the server: requests and socket events in order *)

Inductive ws_event :=
| EvPost (en : env) (body : json)   (* a [POST /api/location] *)
| EvConnect (c : client) (ts : Z)   (* a socket opens, at [Date.now()] = ts *)
| EvClosing (c : client)            (* it starts the closing handshake *)
| EvClose (c : client).             (* its ['close'] event *)

(** The messages sent to the socket [c], in order. *)
Definition deliveries_to (c : client) (ds : list (client * json)) : list json :=
  map snd (filter (fun d => Nat.eqb (fst d) c) ds).

(** The bodies of the 200 replies, in order. *)
Definition ok_bodies (reps : list response) : list json :=
  flat_map (fun rep => match rep with
                       | Reply s b => if s =? 200 then [b] else []
                       | Rejected => []
                       end) reps.

(** The event concerns the socket [c]. *)
Definition touches (c : client) (ev : ws_event) : bool :=
  match ev with
  | EvPost _ _ => false
  | EvConnect c' _ | EvClosing c' | EvClose c' => Nat.eqb c' c
  end.

(** The event opens a socket under the id [c] again. *)
Definition reconnects (c : client) (ev : ws_event) : bool :=
  match ev with
  | EvConnect c' _ => Nat.eqb c' c
  | _ => false
  end.

(** An [isoDate] check that accepts every string as its own ISO form. *)
Definition iso_any (s : string) : option string := Some s.

(** ** Sample requests *)

Definition empty_world (cs : list client) : world :=
  {| db := {| live := []; history := [] |}; clients := cs; closing := [] |}.

(** Two observers; the connection of socket 1 has failed: [ws] has
    marked it CLOSING. *)
Definition observers_world : world := ws_closing (empty_world [1%nat; 2%nat]) 1%nat.

(** A request on a healthy connection. *)
Definition env_at (now1 now2 : Z) (failing : stmt -> bool) : env :=
  {| conn_fails := false; fails := failing; rollback_fails := false; commit_applied := false;
     now_upsert := now1; now_insert := now2; node_iso := "2026-10-19T08:00:00.000Z" |}.

(** A request whose connection is lost at the failing statement. *)
Definition env_lost (now1 now2 : Z) (failing : stmt -> bool) (applied : bool) : env :=
  {| conn_fails := false; fails := failing; rollback_fails := true; commit_applied := applied;
     now_upsert := now1; now_insert := now2; node_iso := "2026-10-19T08:00:00.000Z" |}.

Definition no_failure (s : stmt) : bool := false.

Definition fails_at (s0 : stmt) (s : stmt) : bool :=
  match s0, s with
  | Begin, Begin | Upsert, Upsert | Insert, Insert | Commit, Commit => true
  | _, _ => false
  end.

Definition report_body (e : Z) (la lo : Q) (st : string) : json :=
  JObj [("employee_id", JNum (inject_Z e)); ("latitude", JNum la);
        ("longitude", JNum lo); ("gps_status", JStr st)].

(** The report of [report_body 7 12 77 "on"] once validated. *)
Definition report_7 : report :=
  {| employee_id := 7; latitude := 12; longitude := 77; gps_status := gps_on;
     timestamp := None |}.

(** Events after the failure of socket 1: a report, the ['close'] event
    of socket 1, another report. *)
Definition observer_events : list ws_event :=
  [EvPost (env_at 100 100 no_failure) (report_body 7 12 77 "on");
   EvClose 1%nat;
   EvPost (env_at 101 101 no_failure) (report_body 7 13 78 "off")].

(** The rows that an accepted report [r] writes. *)
Definition new_live_row (r : report) (now : Z) : Live.row :=
  {| Live.employee_id := employee_id r; Live.latitude := round6 (latitude r);
     Live.longitude := round6 (longitude r); Live.gps_status := gps_status r;
     Live.last_update := now |}.

Definition new_hist_row (r : report) (now : Z) : Hist.row :=
  {| Hist.employee_id := employee_id r; Hist.latitude := round6 (latitude r);
     Hist.longitude := round6 (longitude r); Hist.gps_status := gps_status r;
     Hist.recorded_at := now |}.

Section Server.

Variable isoDate : string -> option string.

(** [timestamp: Joi.string().isoDate().optional()] *)
Definition check_timestamp (f : list (string * json)) : result (option string) :=
  match lookup "timestamp" f with
  | None => Ok None
  | Some (JStr s) =>
      if String.eqb s "" then Err (label "timestamp" ++ " is not allowed to be empty")
      else match isoDate s with
           | Some iso => Ok (Some iso)
           | None => Err (label "timestamp" ++ " must be in ISO 8601 date format")
           end
  | Some _ => Err (label "timestamp" ++ " must be a string")
  end.

(** [locationSchema.validate(req.body)]: the children on the clone, then
    the unknown own keys of the clone. *)
Definition validate (body : json) : result report :=
  match body with
  | JObj f =>
      e <- check_employee_id (joi_clone f) ;;
      la <- check_latitude (joi_clone f) ;;
      lo <- check_longitude (joi_clone f) ;;
      st <- check_gps_status (joi_clone f) ;;
      ts <- check_timestamp (joi_clone f) ;;
      match unknown_key (joi_clone_own f) with
      | Some k => Err (label k ++ " is not allowed")
      | None => Ok {| employee_id := e; latitude := la; longitude := lo;
                      gps_status := st; timestamp := ts |}
      end
  | _ => Err (label "value" ++ " must be of type object")
  end.

(** ** [POST /api/location]

    The handler: the new world, the WebSocket deliveries, the reply.  In
    the [catch] branch [await conn.rollback()] rejects when the
    connection is lost, and then the handler rejects as well. *)
Definition post_location (w : world) (en : env) (body : json)
  : world * list (client * json) * response :=
  match validate body with
  | Err m => (w, [], Reply 400 (fail_body m))
  | Ok r =>
      if conn_fails en then (w, [], Rejected)
      else
        let (kept, out) := post_try w en r in
        let w' := match kept with Some st => set_db w st | None => w end in
        match out with
        | Ok (ds, p) => (w', ds, Reply 200 (success_body p))
        | Err _ =>
            if rollback_fails en then (w', [], Rejected)
            else (w', [], Reply 500 (fail_body "Database error"))
        end
  end.

(** One event of a run: the new world, the deliveries and the reply, if
    the event is a request. *)
Definition step (w : world) (ev : ws_event) : world * list (client * json) * option response :=
  match ev with
  | EvPost en body => let '(w', ds, rep) := post_location w en body in (w', ds, Some rep)
  | EvConnect c ts => let (w', ds) := ws_connection w c ts in (w', ds, None)
  | EvClosing c => (ws_closing w c, [], None)
  | EvClose c => (ws_close w c, [], None)
  end.

Fixpoint run (w : world) (evs : list ws_event) : world * list (client * json) * list response :=
  match evs with
  | [] => (w, [], [])
  | ev :: rest =>
      let '(w1, ds1, r1) := step w ev in
      let '(w2, ds2, rs) := run w1 rest in
      (w2, (ds1 ++ ds2)%list, match r1 with Some rep => rep :: rs | None => rs end)
  end.

(** ** Reachable worlds: from the tables created by [ensureSchema], any
    sequence of ingestions and socket events. *)
Inductive reachable : world -> Prop :=
| reach_init cs : reachable (empty_world cs)
| reach_post w en body w' ds rep :
    reachable w -> post_location w en body = (w', ds, rep) -> reachable w'
| reach_connect w c ts : reachable w -> reachable (fst (ws_connection w c ts))
| reach_closing w c : reachable w -> reachable (ws_closing w c)
| reach_close w c : reachable w -> reachable (ws_close w c).

(** A [POST /api/location] through the middleware. *)
Definition serve_post (st : limiter) (ip : string) (now : Z) (w : world) (en : env) (body : json)
  : limiter * (world * list (client * json) * response) :=
  let (st', blocked) := rate_limit st ip now in
  match blocked with
  | Some rep => (st', (w, [], rep))
  | None => (st', post_location w en body)
  end.

(** Successive [POST /api/location] requests of one address: the time of
    each, its environment and its body. *)
Fixpoint serve_posts (st : limiter) (w : world) (ip : string)
  (reqs : list (Z * env * json)) : list response :=
  match reqs with
  | [] => []
  | (t, en, body) :: rest =>
      let '(st', (w', _, rep)) := serve_post st ip t w en body in
      rep :: serve_posts st' w' ip rest
  end.

(** ** Sample runs *)

Definition after_post (w : world) (en : env) (body : json) : world :=
  fst (fst (post_location w en body)).

(** Worker 7 reported once. *)
Definition world_7 : world :=
  after_post (empty_world []) (env_at 100 100 no_failure) (report_body 7 12 77 "on").

(** Socket 2 joins socket 1, then other sockets come and go around a
    failed and two accepted reports. *)
Definition mixed_events : list ws_event :=
  [EvPost (env_at 100 100 no_failure) (report_body 7 12 77 "on");
   EvConnect 3%nat 60;
   EvClosing 1%nat;
   EvPost (env_at 101 101 (fails_at Insert)) (report_body 7 13 78 "on");
   EvClose 1%nat;
   EvPost (env_at 102 102 no_failure) (report_body 8 14 79 "off")].

(** ** Lemmas on the model *)

Lemma rbind_ok {A B : Type} (m : result A) (k : A -> result B) (b : B) :
  rbind m k = Ok b -> exists a, m = Ok a /\ k a = Ok b.
Proof. destruct m as [a|e]; simpl; [eauto | discriminate]. Qed.

Ltac rbind_inv :=
  repeat match goal with
  | H : rbind _ _ = Ok _ |- _ =>
      let a := fresh "a" in let Ha := fresh "Ha" in
      apply rbind_ok in H; destruct H as [a [Ha H]]
  end.

Lemma validate_ok body r :
  validate body = Ok r ->
  exists f, body = JObj f /\
    check_employee_id (joi_clone f) = Ok (employee_id r) /\
    check_latitude (joi_clone f) = Ok (latitude r) /\
    check_longitude (joi_clone f) = Ok (longitude r) /\
    check_gps_status (joi_clone f) = Ok (gps_status r) /\
    check_timestamp (joi_clone f) = Ok (timestamp r) /\
    unknown_key (joi_clone_own f) = None.
Proof.
  destruct body as [| | | | |f]; unfold validate; try discriminate.
  intro H. rbind_inv.
  destruct (unknown_key (joi_clone_own f)) as [k|] eqn:Hf; [discriminate|].
  injection H as <-. simpl. exists f. repeat split; assumption.
Qed.

Lemma lookup_app k l1 l2 :
  lookup k (l1 ++ l2) = match lookup k l1 with Some v => Some v | None => lookup k l2 end.
Proof.
  unfold lookup. induction l1 as [|[k' v'] l1 IH]; simpl; [reflexivity|].
  destruct (String.eqb k' k); [reflexivity|exact IH].
Qed.

(** A key other than [__proto__] reads the same on the own properties of
    the clone as on the body. *)
Lemma lookup_own k f : k <> "__proto__" -> lookup k (joi_clone_own f) = lookup k f.
Proof.
  intro Hk. unfold joi_clone_own, lookup.
  induction f as [|[k' v'] f IH]; simpl; [reflexivity|].
  destruct (String.eqb k' "__proto__") eqn:P; simpl.
  - apply String.eqb_eq in P. subst k'.
    assert (E : String.eqb "__proto__" k = false) by (apply String.eqb_neq; congruence).
    rewrite E. exact IH.
  - destruct (String.eqb k' k); [reflexivity|exact IH].
Qed.

Lemma lookup_clone k f :
  k <> "__proto__" ->
  lookup k (joi_clone f) =
  match lookup k f with Some v => Some v | None => lookup k (joi_clone_proto f) end.
Proof. intro Hk. unfold joi_clone. rewrite lookup_app, lookup_own by exact Hk. reflexivity. Qed.

Lemma lookup_clone_some k f v :
  k <> "__proto__" -> lookup k f = Some v -> lookup k (joi_clone f) = Some v.
Proof. intros Hk Hf. rewrite lookup_clone by exact Hk. rewrite Hf. reflexivity. Qed.

Lemma lookup_clone_none k f :
  k <> "__proto__" -> lookup k f = None ->
  (forall g, lookup "__proto__" f = Some (JObj g) -> lookup k g = None) ->
  lookup k (joi_clone f) = None.
Proof.
  intros Hk Hf Hg. rewrite lookup_clone by exact Hk. rewrite Hf. unfold joi_clone_proto.
  destruct (lookup "__proto__" f) as [[| | | | |g]|]; try reflexivity. apply Hg. reflexivity.
Qed.

Lemma lookup_clone_eq f1 f2 k :
  k <> "__proto__" -> lookup k f1 = lookup k f2 ->
  lookup "__proto__" f1 = lookup "__proto__" f2 ->
  lookup k (joi_clone f1) = lookup k (joi_clone f2).
Proof.
  intros Hk E P. rewrite !lookup_clone by exact Hk. rewrite E. unfold joi_clone_proto.
  rewrite P. reflexivity.
Qed.

(** A key outside the schema among the own properties is always found. *)
Lemma unknown_key_complete own k v :
  In (k, v) own -> is_schema_key k = false -> unknown_key own <> None.
Proof.
  intros Hin Hk. unfold unknown_key.
  destruct (least_index_key own) as [[? ?]|]; [discriminate|].
  destruct (find (fun p => negb (is_schema_key (fst p))) own) as [[? ?]|] eqn:F; [discriminate|].
  pose proof (find_none _ _ F (k, v) Hin) as H. simpl in H. rewrite Hk in H. discriminate.
Qed.

Lemma joi_number_base_ok k q : (Qabs q <= 9007199254740991 # 1)%Q -> joi_number_base k q = Ok q.
Proof. intro H. unfold joi_number_base. apply Qle_bool_iff in H. rewrite H. reflexivity. Qed.

Lemma joi_number_JNum k q q' : joi_number k (Some (JNum q)) = Ok q' -> q' = q.
Proof.
  unfold joi_number, joi_number_base. destruct (Qle_bool _ _); congruence.
Qed.

Ltac qle_inv :=
  repeat match goal with
  | H : (if Qle_bool ?x ?y then Ok _ else Err _) = Ok _ |- _ =>
      let E := fresh "E" in
      destruct (Qle_bool x y) eqn:E; [injection H; clear H; intros; subst | discriminate];
      apply Qle_bool_iff in E
  end.

Lemma check_latitude_range f q :
  check_latitude f = Ok q -> (-90 <= q <= 90)%Q.
Proof.
  unfold check_latitude, joi_min, joi_max. intro H. rbind_inv. qle_inv.
  split; assumption.
Qed.

Lemma check_longitude_range f q :
  check_longitude f = Ok q -> (-180 <= q <= 180)%Q.
Proof.
  unfold check_longitude, joi_min, joi_max. intro H. rbind_inv. qle_inv.
  split; assumption.
Qed.

Lemma check_latitude_value f q v :
  check_latitude f = Ok v -> lookup "latitude" f = Some (JNum q) -> v = q.
Proof.
  unfold check_latitude, joi_min, joi_max. intros H Hl. rewrite Hl in H. rbind_inv.
  apply joi_number_JNum in Ha. subst. qle_inv. reflexivity.
Qed.

Lemma check_longitude_value f q v :
  check_longitude f = Ok v -> lookup "longitude" f = Some (JNum q) -> v = q.
Proof.
  unfold check_longitude, joi_min, joi_max. intros H Hl. rewrite Hl in H. rbind_inv.
  apply joi_number_JNum in Ha. subst. qle_inv. reflexivity.
Qed.

(** What the statements before the [COMMIT] did when they all went
    through. *)
Lemma tx_writes_ok en r st c :
  tx_writes en r st = Ok c ->
  fails en Begin = false /\ fails en Upsert = false /\ fails en Insert = false /\
  exists s1, upsert_live r (now_upsert en) st = Some s1 /\
             insert_history r (now_insert en) s1 = Some c.
Proof.
  unfold tx_writes, sql. intro H. rbind_inv.
  destruct (fails en Begin) eqn:F1; [discriminate|].
  destruct (fails en Upsert) eqn:F2; [discriminate|].
  destruct (fails en Insert) eqn:F3; [discriminate|].
  destruct (upsert_live r _ _) as [s1|] eqn:U; [|discriminate].
  destruct (insert_history r _ _) as [s2|] eqn:I; [|discriminate].
  repeat match goal with H : Ok _ = Ok _ |- _ => injection H; clear H; intros end.
  subst. repeat split. eexists. split; eassumption.
Qed.

Lemma tx_writes_err en r st :
  fails en Begin = true \/ fails en Upsert = true \/ fails en Insert = true \/
  int_col (employee_id r) = None ->
  exists m, tx_writes en r st = Err m.
Proof.
  intro F. destruct (tx_writes en r st) as [c|m] eqn:T; [|eauto].
  apply tx_writes_ok in T as (F1 & F2 & F3 & s1 & U & _).
  exfalso. destruct F as [F|[F|[F|F]]]; try congruence.
  unfold upsert_live in U. rewrite F in U. discriminate.
Qed.

Lemma int_col_some z e : int_col z = Some e -> e = z.
Proof. unfold int_col. destruct (_ && _); congruence. Qed.

Lemma dec_10_6_some q m : dec_10_6 q = Some m -> m = round6 q.
Proof. unfold dec_10_6. destruct (_ <=? _); congruence. Qed.

Lemma NoDup_snoc {A : Type} (l : list A) (a : A) :
  NoDup l -> ~ In a l -> NoDup (l ++ [a]).
Proof.
  intros Hl Ha. apply (Permutation_NoDup (Permutation_cons_append l a)).
  constructor; assumption.
Qed.

(** The upsert keeps the other rows, puts the full new row in place of
    the worker's row, and keeps the worker key unique. *)
Lemma upsert_live_spec r now s s' :
  upsert_live r now s = Some s' ->
  history s' = history s /\
  (forall x, In x (live s') <->
     (In x (live s) /\ Live.employee_id x <> employee_id r) \/ x = new_live_row r now) /\
  (NoDup (map Live.employee_id (live s)) -> NoDup (map Live.employee_id (live s'))).
Proof.
  unfold upsert_live.
  destruct (int_col (employee_id r)) as [e|] eqn:Ie; [|discriminate].
  destruct (dec_10_6 (latitude r)) as [la|] eqn:La; [|discriminate].
  destruct (dec_10_6 (longitude r)) as [lo|] eqn:Lo; [|discriminate].
  apply int_col_some in Ie. apply dec_10_6_some in La, Lo. subst e la lo.
  destruct (existsb _ (live s)) eqn:Ex; intro H; injection H as <-; simpl.
  - repeat split.
    + intros Hx. apply in_map_iff in Hx as (y & <- & Hy).
      destruct (Live.employee_id y =? employee_id r) eqn:Ey.
      * right. apply Z.eqb_eq in Ey. unfold new_live_row. rewrite Ey. reflexivity.
      * left. split; [assumption|]. apply Z.eqb_neq. assumption.
    + intros [[Hx Ne]| ->]; apply in_map_iff.
      * exists x. split; [|assumption].
        apply Z.eqb_neq in Ne. rewrite Ne. reflexivity.
      * apply existsb_exists in Ex as (y & Hy & Ey).
        exists y. split; [|assumption]. rewrite Ey.
        apply Z.eqb_eq in Ey. unfold new_live_row. rewrite Ey. reflexivity.
    + intro Hn. rewrite map_map.
      rewrite (map_ext _ Live.employee_id); [assumption|].
      intro x. destruct (_ =? _); reflexivity.
  - repeat split.
    + intro Hx. apply in_app_or in Hx as [Hx|[<- | []]].
      * left. split; [assumption|]. intro Ey.
        assert (existsb (fun x => Live.employee_id x =? employee_id r) (live s) = true)
          by (apply existsb_exists; exists x; split; [assumption|apply Z.eqb_eq; assumption]).
        congruence.
      * right. reflexivity.
    + intros [[Hx _]| ->]; apply in_or_app; [left; assumption|right; left; reflexivity].
    + intro Hn. rewrite map_app. apply NoDup_snoc; [assumption|].
      intro Hin. apply in_map_iff in Hin as (y & Ey & Hy).
      assert (existsb (fun x => Live.employee_id x =? employee_id r) (live s) = true)
        by (apply existsb_exists; exists y; split; [assumption|apply Z.eqb_eq; assumption]).
      congruence.
Qed.

Lemma insert_history_spec r now s s' :
  insert_history r now s = Some s' ->
  live s' = live s /\ history s' = (history s ++ [new_hist_row r now])%list.
Proof.
  unfold insert_history.
  destruct (int_col (employee_id r)) as [e|] eqn:Ie; [|discriminate].
  destruct (dec_10_6 (latitude r)) as [la|] eqn:La; [|discriminate].
  destruct (dec_10_6 (longitude r)) as [lo|] eqn:Lo; [|discriminate].
  apply int_col_some in Ie. apply dec_10_6_some in La, Lo. subst e la lo.
  intro H. injection H as <-. split; reflexivity.
Qed.

(** The two writes of an accepted report, as a whole. *)
Lemma tx_writes_spec en r st c :
  tx_writes en r st = Ok c ->
  history c = (history st ++ [new_hist_row r (now_insert en)])%list /\
  (forall x, In x (live c) <->
     (In x (live st) /\ Live.employee_id x <> employee_id r) \/
     x = new_live_row r (now_upsert en)) /\
  (NoDup (map Live.employee_id (live st)) -> NoDup (map Live.employee_id (live c))).
Proof.
  intro T. apply tx_writes_ok in T as (_ & _ & _ & s1 & U & I).
  apply insert_history_spec in I as [Lc Hc]. apply upsert_live_spec in U as (H1 & M & N).
  rewrite Hc, H1, Lc. split; [reflexivity|]. split; assumption.
Qed.

(** Every run of the handler keeps the sockets, and either leaves the
    tables as they were with no delivery and no 200 reply, or has gone
    through the writes of a validated report, which are then committed:
    with the broadcast and the 200 reply when the [COMMIT] resolved, with
    neither when it rejected after the server had executed it. *)
Lemma post_location_cases w en body w' ds rep :
  post_location w en body = (w', ds, rep) ->
  clients w' = clients w /\ closing w' = closing w /\
  ((db w' = db w /\ ds = [] /\ forall b, rep <> Reply 200 b) \/
   (exists r, validate body = Ok r /\ conn_fails en = false /\
      tx_writes en r (db w) = Ok (db w') /\
      ((fails en Commit = false /\
        ds = broadcast (is_open w) (clients w) (payload r (node_iso en)) /\
        rep = Reply 200 (success_body (payload r (node_iso en)))) \/
       (fails en Commit = true /\ commit_applied en = true /\ ds = [] /\
        forall b, rep <> Reply 200 b)))).
Proof.
  unfold post_location.
  destruct (validate body) as [r|m] eqn:V;
    [|intro H; injection H as <- <- <-; split; [|split]; [reflexivity..|];
      left; repeat split; congruence].
  destruct (conn_fails en) eqn:C;
    [intro H; injection H as <- <- <-; split; [|split]; [reflexivity..|];
      left; repeat split; congruence|].
  unfold post_try. destruct (tx_writes en r (db w)) as [p2|m] eqn:T;
    [|destruct (rollback_fails en); intro H; injection H as <- <- <-;
      (split; [|split]; [reflexivity..|]); left; repeat split; congruence].
  destruct (fails en Commit) eqn:Fc.
  - destruct (commit_applied en) eqn:A; destruct (rollback_fails en);
      intro H; injection H as <- <- <-; (split; [|split]; [reflexivity..|]).
    + right. exists r. repeat split; try assumption. right. repeat split; congruence.
    + right. exists r. repeat split; try assumption. right. repeat split; congruence.
    + left. repeat split; congruence.
    + left. repeat split; congruence.
  - intro H. injection H as <- <- <-. split; [|split]; [reflexivity..|].
    right. exists r. repeat split; try assumption. left. repeat split.
Qed.

Lemma broadcast_filter open cs obj :
  broadcast open cs obj = map (fun c => (c, location_msg obj)) (filter open cs).
Proof.
  unfold broadcast. induction cs as [|c cs IH]; simpl; [reflexivity|].
  unfold send. destruct (open c); simpl; rewrite IH; reflexivity.
Qed.

(** What one socket receives of a broadcast. *)
Lemma deliveries_broadcast open cs obj c :
  deliveries_to c (broadcast open cs obj) =
  if open c then map (fun _ => location_msg obj) (filter (fun x => Nat.eqb x c) cs) else [].
Proof.
  rewrite broadcast_filter. unfold deliveries_to.
  induction cs as [|x cs IH]; simpl; [destruct (open c); reflexivity|].
  destruct (open x) eqn:Ox; simpl; destruct (Nat.eqb x c) eqn:E; simpl; rewrite IH;
    try (apply Nat.eqb_eq in E; subst x; rewrite Ox); reflexivity.
Qed.

Lemma deliveries_app c ds1 ds2 :
  deliveries_to c (ds1 ++ ds2) = (deliveries_to c ds1 ++ deliveries_to c ds2)%list.
Proof. unfold deliveries_to. rewrite filter_app, map_app. reflexivity. Qed.

Lemma filter_eqb_absent c l : ~ In c l -> filter (fun x => Nat.eqb x c) l = [].
Proof.
  induction l as [|x l IH]; intro H; simpl; [reflexivity|].
  destruct (Nat.eqb x c) eqn:E.
  - apply Nat.eqb_eq in E. subst. exfalso. apply H. left. reflexivity.
  - apply IH. intro Hi. apply H. right. exact Hi.
Qed.

Lemma filter_eqb_remove c c' l :
  c' <> c ->
  filter (fun x => Nat.eqb x c) (filter (fun x => negb (Nat.eqb x c')) l) =
  filter (fun x => Nat.eqb x c) l.
Proof.
  intro Ne. induction l as [|x l IH]; simpl; [reflexivity|].
  destruct (Nat.eqb x c') eqn:E'; simpl.
  - apply Nat.eqb_eq in E'. subst x.
    assert (E : Nat.eqb c' c = false) by (apply Nat.eqb_neq; exact Ne).
    rewrite E. exact IH.
  - destruct (Nat.eqb x c); [f_equal|]; exact IH.
Qed.

(** A socket not touched by an event stays in [wss.clients] once, and
    OPEN. *)
Lemma step_keeps_socket w ev c :
  filter (fun x => Nat.eqb x c) (clients w) = [c] -> is_open w c = true ->
  touches c ev = false ->
  filter (fun x => Nat.eqb x c) (clients (fst (fst (step w ev)))) = [c] /\
  is_open (fst (fst (step w ev))) c = true /\
  exists ps,
    ok_bodies (match snd (step w ev) with Some rep => [rep] | None => [] end) =
      map success_body ps /\
    deliveries_to c (snd (fst (step w ev))) = map location_msg ps.
Proof.
  intros Hc Ho Ht. destruct ev as [en body|c' ts|c'|c']; simpl in Ht |- *.
  - destruct (post_location w en body) as [[w' ds] rep] eqn:P. simpl.
    apply post_location_cases in P as (Cl & Co & Cs).
    unfold is_open. rewrite Cl, Co. split; [exact Hc|]. split; [exact Ho|].
    destruct Cs as [(_ & -> & N)|(r & _ & _ & _ & [(_ & -> & ->)|(_ & _ & -> & N)])].
    + exists []. split; [|reflexivity]. simpl.
      destruct rep as [s b|]; simpl; [|reflexivity].
      destruct (s =? 200) eqn:E; [|reflexivity].
      apply Z.eqb_eq in E. subst. exfalso. apply (N b). reflexivity.
    + exists [payload r (node_iso en)]. split; [reflexivity|].
      rewrite deliveries_broadcast, Ho, Hc. reflexivity.
    + exists []. split; [|reflexivity]. simpl.
      destruct rep as [s b|]; simpl; [|reflexivity].
      destruct (s =? 200) eqn:E; [|reflexivity].
      apply Z.eqb_eq in E. subst. exfalso. apply (N b). reflexivity.
  - split; [rewrite filter_app; simpl; rewrite Ht, app_nil_r; exact Hc|].
    split; [exact Ho|]. exists []. split; [reflexivity|].
    unfold deliveries_to. simpl. rewrite Ht. reflexivity.
  - split; [exact Hc|]. split.
    + unfold is_open in Ho |- *. simpl. rewrite Nat.eqb_sym, Ht. exact Ho.
    + exists []. split; reflexivity.
  - apply Nat.eqb_neq in Ht. split; [rewrite filter_eqb_remove by exact Ht; exact Hc|].
    split.
    + unfold is_open in Ho |- *. simpl.
      destruct (existsb (Nat.eqb c) (filter (fun x => negb (Nat.eqb x c')) (closing w))) eqn:E;
        [|reflexivity].
      apply existsb_exists in E as (x & Hx & Ex). apply filter_In in Hx as [Hx _].
      assert (existsb (Nat.eqb c) (closing w) = true)
        by (apply existsb_exists; exists x; split; assumption).
      rewrite H in Ho. discriminate.
    + exists []. split; reflexivity.
Qed.

Lemma run_keeps_socket c evs : forall w,
  filter (fun x => Nat.eqb x c) (clients w) = [c] -> is_open w c = true ->
  forallb (fun ev => negb (touches c ev)) evs = true ->
  exists ps, ok_bodies (snd (run w evs)) = map success_body ps /\
             deliveries_to c (snd (fst (run w evs))) = map location_msg ps.
Proof.
  induction evs as [|ev evs IH]; intros w Hc Ho Ht.
  - exists []. split; reflexivity.
  - simpl in Ht. apply andb_true_iff in Ht as [Hev Ht]. apply negb_true_iff in Hev.
    destruct (step_keeps_socket w ev c Hc Ho Hev) as (Hc1 & Ho1 & ps1 & O1 & D1).
    simpl run. destruct (step w ev) as [[w1 ds1] r1] eqn:S. simpl in Hc1, Ho1, O1, D1.
    destruct (IH w1 Hc1 Ho1 Ht) as (ps2 & O2 & D2).
    destruct (run w1 evs) as [[w2 ds2] rs] eqn:R. simpl in O2, D2 |- *.
    exists (ps1 ++ ps2)%list. split.
    + rewrite map_app, <- O1, <- O2. destruct r1 as [r|]; [|reflexivity].
      unfold ok_bodies. rewrite <- flat_map_app. reflexivity.
    + rewrite deliveries_app, D1, D2, map_app. reflexivity.
Qed.

(** The first row of a newest-first list is not older than the rest. *)
Lemma newest_first_head h t :
  newest_first (h :: t) ->
  forall y, In y t -> Hist.recorded_at y <= Hist.recorded_at h.
Proof.
  intros S. apply Sorted_StronglySorted in S; [|intros a b c; lia].
  inversion S as [|? ? _ F]; subst. apply Forall_forall. assumption.
Qed.

Lemma js_min_5000_count x n :
  limit_count (js_min x (Fin 5000)) = Some n -> (n <= 5000)%nat.
Proof.
  destruct x as [| | |q]; simpl; try discriminate.
  - intro H. injection H as <-. reflexivity.
  - destruct (Qle_bool q 5000) eqn:Q5; simpl.
    + apply Qle_bool_iff in Q5.
      destruct (is_integer q && Qle_bool 0 q)%bool eqn:I; [|discriminate].
      intro H. injection H as <-.
      apply andb_true_iff in I as [I _]. unfold is_integer in I.
      apply Pos.eqb_eq in I.
      assert (R : (Qred q <= 5000)%Q) by (rewrite Qred_correct; assumption).
      unfold Qle in R. simpl in R. rewrite I in R. lia.
    + intro H. injection H as <-. reflexivity.
Qed.

Lemma check_employee_id_range f e : check_employee_id f = Ok e -> 1 <= e.
Proof.
  unfold check_employee_id, joi_min. intro H.
  apply rbind_ok in H as (q & _ & H). apply rbind_ok in H as (q' & Hq & H).
  destruct (is_integer q) eqn:I; [|discriminate]. injection Hq as <-.
  apply rbind_ok in H as (q'' & Hq & H).
  destruct (Qle_bool 1 q) eqn:L; [|discriminate]. injection Hq as <-.
  apply Qle_bool_iff in L. injection H as <-.
  unfold is_integer in I. apply Pos.eqb_eq in I.
  assert (R : (1 <= Qred q)%Q) by (rewrite Qred_correct; assumption).
  unfold Qle in R. simpl in R. rewrite I in R. lia.
Qed.

Lemma round6_bound q : (-180 <= q <= 180)%Q -> Z.abs (round6 q) <= 181000000.
Proof.
  destruct q as [n d]. intros [Hl Hh]. unfold Qle in Hl, Hh. cbn [Qnum Qden] in Hl, Hh.
  unfold round6. cbn [Qnum Qden]. change (10 ^ 6) with 1000000.
  assert (Hd : 0 < Z.pos d) by lia.
  destruct (0 <=? n * 1000000) eqn:E.
  - apply Z.leb_le in E. rewrite Z.abs_eq.
    + apply Z.div_le_upper_bound; lia.
    + apply Z.div_pos; lia.
  - apply Z.leb_gt in E. rewrite Z.abs_opp, Z.abs_eq.
    + apply Z.div_le_upper_bound; lia.
    + apply Z.div_pos; lia.
Qed.

Lemma dec_10_6_in_range q : (-180 <= q <= 180)%Q -> dec_10_6 q = Some (round6 q).
Proof.
  intro H. unfold dec_10_6. apply round6_bound in H.
  destruct (Z.abs (round6 q) <=? 9999999999) eqn:E; [reflexivity|].
  apply Z.leb_gt in E. lia.
Qed.

Lemma Qred_inject_Z e : Qred (inject_Z e) = inject_Z e.
Proof.
  unfold Qred, inject_Z. cbn [Qnum Qden].
  pose proof (Z.ggcd_gcd e 1) as G. pose proof (Z.ggcd_correct_divisors e 1) as D.
  destruct (Z.ggcd e 1) as [g [aa bb]]. simpl in G, D |- *.
  rewrite Z.gcd_1_r in G. subst g. destruct D as [D1 D2].
  rewrite Z.mul_1_l in D1, D2. subst. reflexivity.
Qed.

Lemma latest_record_snoc e hs h :
  latest_record e (hs ++ [h]) =
  if Hist.employee_id h =? e then Some h else latest_record e hs.
Proof.
  induction hs as [|a hs IH]; simpl.
  - reflexivity.
  - rewrite IH. destruct (Hist.employee_id h =? e); reflexivity.
Qed.

Lemma Sorted_firstn {A : Type} (R : A -> A -> Prop) n l :
  Sorted R l -> Sorted R (firstn n l).
Proof.
  revert n. induction l as [|a l IH]; intros n S.
  - destruct n; constructor.
  - destruct n as [|n]; simpl; [constructor|].
    apply Sorted_inv in S as [S H]. constructor.
    + apply IH, S.
    + destruct n as [|n]; [constructor|]. destruct l as [|b l]; simpl; [constructor|].
      inversion H; subst. constructor. assumption.
Qed.

(** The outcome of a request of [ip] depends only on the record of [ip]. *)
Lemma consume_all_local st1 st2 ip ts :
  st1 ip = st2 ip -> consume_all st1 ip ts = consume_all st2 ip ts.
Proof.
  revert st1 st2. induction ts as [|t ts IH]; intros st1 st2 E; simpl; [reflexivity|].
  unfold consume. rewrite E. f_equal. apply IH. simpl. rewrite String.eqb_refl. reflexivity.
Qed.

Lemma consume_all_window st ip k E ts :
  st ip = Some {| consumed := Z.of_nat k; expires_at := E |} ->
  (forall t, In t ts -> t < E) ->
  consume_all st ip ts = map (fun i => Z.of_nat i <=? rl_points) (seq (S k) (List.length ts)).
Proof.
  revert st k. induction ts as [|t ts IH]; intros st k Hs Ht; simpl; [reflexivity|].
  unfold consume. rewrite Hs. simpl expires_at.
  assert (Hlt : (0 <? E - t) = true) by (apply Z.ltb_lt; specialize (Ht t (or_introl eq_refl)); lia).
  rewrite Hlt. simpl consumed. f_equal.
  - rewrite Z.ltb_antisym, negb_involutive. f_equal. lia.
  - apply IH.
    + rewrite String.eqb_refl. do 2 f_equal. lia.
    + intros t' H'. apply Ht. right. exact H'.
Qed.

Lemma validate_bounds body r :
  validate body = Ok r ->
  1 <= employee_id r /\ (-90 <= latitude r <= 90)%Q /\ (-180 <= longitude r <= 180)%Q.
Proof.
  intro V. apply validate_ok in V as (f & _ & He & Hla & Hlo & _).
  split; [|split].
  - apply (check_employee_id_range (joi_clone f)), He.
  - apply (check_latitude_range (joi_clone f)), Hla.
  - apply (check_longitude_range (joi_clone f)), Hlo.
Qed.

(** From an address without a live window (no record, or an expired
    one), the requests made within 60 seconds of the first are let
    through up to the 120th and refused from the 121st on. *)
Lemma limiter_window st ip t0 ts :
  (forall e, st ip = Some e -> expires_at e <= t0) ->
  (forall t, In t ts -> t < t0 + rl_duration_ms) ->
  consume_all st ip (t0 :: ts) =
  map (fun i => Z.of_nat i <=? rl_points) (seq 1 (S (List.length ts))).
Proof.
  intros Hst Hts. simpl consume_all. unfold consume.
  destruct (st ip) as [e|] eqn:E.
  - specialize (Hst e eq_refl).
    destruct (0 <? expires_at e - t0) eqn:L; [apply Z.ltb_lt in L; lia|].
    simpl. f_equal.
    apply (consume_all_window _ _ 1 (t0 + rl_duration_ms)); [|exact Hts].
    rewrite String.eqb_refl. reflexivity.
  - simpl. f_equal.
    apply (consume_all_window _ _ 1 (t0 + rl_duration_ms)); [|exact Hts].
    rewrite String.eqb_refl. reflexivity.
Qed.

Lemma post_location_reply_status w en body w' ds s b :
  post_location w en body = (w', ds, Reply s b) -> s = 200 \/ s = 400 \/ s = 500.
Proof.
  unfold post_location.
  destruct (validate body); [|intro H; injection H; intros; subst; auto].
  destruct (conn_fails en); [discriminate|].
  destruct (post_try w en a) as [kept [[ds' p]|m]];
    [intro H; injection H; intros; subst; auto|].
  destruct (rollback_fails en); [discriminate|]. intro H; injection H; intros; subst; auto.
Qed.

Lemma serve_posts_consume st w ip reqs :
  map handled (serve_posts st w ip reqs) =
  consume_all st ip (map (fun r => fst (fst r)) reqs).
Proof.
  revert st w. induction reqs as [|[[t en] body] rest IH]; intros st w; [reflexivity|].
  cbn [serve_posts consume_all map fst].
  unfold serve_post, rate_limit. destruct (consume st ip t) as [st' ok].
  destruct ok; simpl.
  - destruct (post_location w en body) as [[w' ds] rep] eqn:P. simpl. f_equal; [|apply IH].
    destruct rep as [s b|]; [|reflexivity].
    apply post_location_reply_status in P as [ -> | [ -> | -> ] ]; reflexivity.
  - f_equal. apply IH.
Qed.

(** The reply of a request does not depend on the sockets. *)
Lemma post_reply_sockets w en body cs cl :
  snd (post_location {| db := db w; clients := cs; closing := cl |} en body) =
  snd (post_location w en body).
Proof.
  unfold post_location, post_try.
  change (db {| db := db w; clients := cs; closing := cl |}) with (db w).
  destruct (validate body) as [r|m]; [|reflexivity].
  destruct (conn_fails en); [reflexivity|].
  destruct (tx_writes en r (db w)) as [p2|m]; [|destruct (rollback_fails en); reflexivity].
  destruct (fails en Commit); [|reflexivity].
  destruct (commit_applied en), (rollback_fails en); reflexivity.
Qed.

(** A socket that is CLOSING, or not in [wss.clients], receives nothing
    from an event that does not open it again, and stays so. *)
Lemma step_gone w ev c :
  In c (closing w) \/ ~ In c (clients w) -> reconnects c ev = false ->
  deliveries_to c (snd (fst (step w ev))) = [] /\
  (In c (closing (fst (fst (step w ev)))) \/ ~ In c (clients (fst (fst (step w ev))))).
Proof.
  intros G Hr. destruct ev as [en body|c' ts|c'|c']; simpl in Hr |- *.
  - destruct (post_location w en body) as [[w' ds] rep] eqn:P. simpl.
    apply post_location_cases in P as (Cl & Co & Cs). rewrite Cl, Co. split; [|exact G].
    destruct Cs as [(_ & -> & _)|(r & _ & _ & _ & [(_ & -> & _)|(_ & _ & -> & _)])];
      try reflexivity.
    rewrite deliveries_broadcast. destruct (is_open w c) eqn:O; [|reflexivity].
    destruct G as [G|G].
    + unfold is_open in O.
      assert (E : existsb (Nat.eqb c) (closing w) = true)
        by (apply existsb_exists; exists c; split; [exact G|apply Nat.eqb_refl]).
      rewrite E in O. discriminate.
    + rewrite filter_eqb_absent by exact G. reflexivity.
  - split.
    + unfold deliveries_to. simpl. rewrite Hr. reflexivity.
    + destruct G as [G|G]; [left; exact G|right].
      intro H. apply in_app_or in H as [H|[H|[]]]; [exact (G H)|].
      subst. rewrite Nat.eqb_refl in Hr. discriminate.
  - split; [reflexivity|]. destruct G as [G|G]; [left; right; exact G|right; exact G].
  - split; [reflexivity|].
    destruct (Nat.eqb c' c) eqn:E.
    + apply Nat.eqb_eq in E. subst. right. intro H. apply filter_In in H as [_ H].
      rewrite Nat.eqb_refl in H. discriminate.
    + destruct G as [G|G]; [left|right].
      * apply filter_In. split; [exact G|]. rewrite Nat.eqb_sym, E. reflexivity.
      * intro H. apply filter_In in H as [H _]. exact (G H).
Qed.

Lemma run_gone c evs : forall w,
  In c (closing w) \/ ~ In c (clients w) ->
  forallb (fun ev => negb (reconnects c ev)) evs = true ->
  deliveries_to c (snd (fst (run w evs))) = [].
Proof.
  induction evs as [|ev evs IH]; intros w G Ht; [reflexivity|].
  simpl in Ht. apply andb_true_iff in Ht as [Hev Ht]. apply negb_true_iff in Hev.
  destruct (step_gone w ev c G Hev) as (D1 & G1).
  simpl run. destruct (step w ev) as [[w1 ds1] r1] eqn:S. simpl in D1, G1.
  pose proof (IH w1 G1 Ht) as D2.
  destruct (run w1 evs) as [[w2 ds2] rs]. simpl in D2 |- *.
  rewrite deliveries_app, D1, D2. reflexivity.
Qed.

(** ** The claims *)

(** C3: a body whose latitude is a number outside [-90, 90] or whose
    longitude is a number outside [-180, 180] is answered 400 by the
    validation, whatever the environment (even before a connection is
    taken): the tables are unchanged and nothing is broadcast. *)
Theorem post_out_of_range_rejected w en f q :
  (lookup "latitude" f = Some (JNum q) /\ (q < -90 \/ 90 < q)%Q) \/
  (lookup "longitude" f = Some (JNum q) /\ (q < -180 \/ 180 < q)%Q) ->
  exists m, post_location w en (JObj f) = (w, [], Reply 400 (fail_body m)).
Proof.
  intro Hq. unfold post_location.
  destruct (validate (JObj f)) as [r|m] eqn:V; [|eauto].
  exfalso. apply validate_ok in V as (f' & Ef & _ & La & Lo & _).
  injection Ef as <-.
  destruct Hq as [[Hl Hr]|[Hl Hr]].
  - apply (lookup_clone_some "latitude" _ _ ltac:(discriminate)) in Hl.
    pose proof (check_latitude_range _ _ La) as R.
    rewrite (check_latitude_value _ _ _ La Hl) in R.
    destruct R, Hr as [Hr|Hr]; eapply Qlt_not_le; eauto.
  - apply (lookup_clone_some "longitude" _ _ ltac:(discriminate)) in Hl.
    pose proof (check_longitude_range _ _ Lo) as R.
    rewrite (check_longitude_value _ _ _ Lo Hl) in R.
    destruct R, Hr as [Hr|Hr]; eapply Qlt_not_le; eauto.
Qed.

(** C4: once the connection of a socket [c] has failed, [ws] has marked it
    CLOSING (and removes it from [wss.clients] on its ['close'] event):
    for the rest of any run that does not open [c] again, [c] receives no
    event, while a socket [d] that stays OPEN receives the event of every
    accepted report, in order, those of the reports made while [c] was
    failing included.  No send raises an exception, and the reply of a
    request never depends on the sockets. *)
Theorem broadcast_failure_isolated w c d evs :
  In c (closing w) ->
  filter (fun x => Nat.eqb x d) (clients w) = [d] -> is_open w d = true ->
  forallb (fun ev => negb (reconnects c ev)) evs = true ->
  forallb (fun ev => negb (touches d ev)) evs = true ->
  deliveries_to c (snd (fst (run w evs))) = [] /\
  (exists ps, ok_bodies (snd (run w evs)) = map success_body ps /\
              deliveries_to d (snd (fst (run w evs))) = map location_msg ps) /\
  (forall w0 en body cs cl,
     snd (post_location {| db := db w0; clients := cs; closing := cl |} en body) =
     snd (post_location w0 en body)).
Proof.
  intros Hc Hd Ho Hr Ht. split; [apply run_gone; [left; exact Hc|exact Hr]|].
  split; [apply run_keeps_socket; assumption|].
  intros. apply post_reply_sockets.
Qed.

(** C5 (as amended): for a request that passes the employee_id check, the
    limit sent to the store is 500 when the query has no limit or an empty
    one, and [Math.min(Number(limit), 5000)] otherwise: there is no lower
    bound (0, negative, fractional and non-numeric limits reach the store),
    a numeric limit above 5000 becomes 5000, and a successful read never
    returns more than 5000 records. *)
Theorem history_limit_default_and_cap param :
  truthy (js_Number param) = true ->
  history_action_of param None = Query (js_Number param) (Fin 500) /\
  history_action_of param (Some "") = Query (js_Number param) (Fin 500) /\
  (forall s, s <> "" ->
     history_action_of param (Some s) = Query (js_Number param) (js_min (js_Number s) (Fin 5000))) /\
  (forall s q, s <> "" -> js_Number s = Fin q -> (5000 < q)%Q ->
     history_action_of param (Some s) = Query (js_Number param) (Fin 5000)) /\
  (forall qlimit e l st rows,
     history_action_of param qlimit = Query e l ->
     select_history st e l (Some rows) -> (List.length rows <= 5000)%nat).
Proof.
  intro T. unfold history_action_of. rewrite T. simpl.
  split; [reflexivity|]. split; [reflexivity|]. split; [|split].
  - intros s0 Ne. apply String.eqb_neq in Ne. rewrite Ne. reflexivity.
  - intros s0 q Ne Hq H5. apply String.eqb_neq in Ne. rewrite Ne, Hq. simpl.
    destruct (Qle_bool q 5000) eqn:E; [|reflexivity].
    apply Qle_bool_iff in E. exfalso. apply (Qlt_not_le _ _ H5 E).
  - intros qlimit e l st rows H S. injection H as <- <-.
    unfold select_history in S.
    destruct (emp_filter (js_Number param)); [|discriminate].
    match type of S with context [limit_count ?x] => destruct (limit_count x) as [n|] eqn:Lc end;
      [|discriminate].
    destruct S as (l' & _ & _ & Er). injection Er as ->.
    rewrite length_firstn. apply js_min_5000_count in Lc. lia.
Qed.

(** C6 (the defect): the check [if (!employee_id)] only refuses 0 and
    NaN; a negative or fractional employee_id reaches the store query. *)
Theorem history_nonpositive_id_queried :
  history_action_of "-3" None = Query (Fin (-3)) (Fin 500) /\
  history_action_of "2.5" None = Query (Fin (5 # 2)) (Fin 500) /\
  history_action_of "0" None = Reject /\
  history_action_of "abc" None = Reject.
Proof. repeat split; vm_compute; reflexivity. Qed.

(** C7 (as amended): on a 200 reply the live row of the worker carries
    the NOW() of the upsert statement, the history record carries the
    NOW() of the insert statement, and the broadcast event and the reply
    are built from the validated request values and the Node.js clock
    ([node_iso]), not from the committed row; the event goes to the OPEN
    sockets of [wss.clients], in order. *)
Theorem post_success_stamps_and_event w en body w' ds b r :
  post_location w en body = (w', ds, Reply 200 b) ->
  validate body = Ok r ->
  (forall x, In x (live (db w')) -> Live.employee_id x = employee_id r ->
     Live.last_update x = now_upsert en) /\
  history (db w') = (history (db w) ++ [new_hist_row r (now_insert en)])%list /\
  b = success_body (payload r (node_iso en)) /\
  ds = map (fun c => (c, location_msg (payload r (node_iso en)))) (filter (is_open w) (clients w)).
Proof.
  intros P V.
  apply post_location_cases in P as
    (_ & _ & [(_ & _ & NS)|(r' & V' & _ & T & [(_ & Eds & Eb)|(_ & _ & _ & NS)])]);
    try (exfalso; eapply NS; reflexivity).
  rewrite V in V'. injection V' as <-. injection Eb as ->.
  apply tx_writes_spec in T as (Hc & M & _).
  split; [|split; [exact Hc|split; [reflexivity|]]].
  - intros x Hx Ex. apply M in Hx as [[_ Ne]| ->]; [congruence|reflexivity].
  - rewrite Eds. apply broadcast_filter.
Qed.

(** C8: in every reachable world the live table has at most one row per
    employee_id (the key column is duplicate-free), and every run of the
    handler either leaves the live table as it was or, for the validated
    report [r], removes every row of [employee_id r] and adds the full new
    row: latitude, longitude, gps_status and last_update are all
    replaced. *)
Theorem live_unique_full_replace w :
  reachable w ->
  NoDup (map Live.employee_id (live (db w))) /\
  (forall en body w' ds rep,
     post_location w en body = (w', ds, rep) ->
     live (db w') = live (db w) \/
     exists r, validate body = Ok r /\
       forall x, In x (live (db w')) <->
         (In x (live (db w)) /\ Live.employee_id x <> employee_id r) \/
         x = new_live_row r (now_upsert en)).
Proof.
  assert (Step : forall w en body w' ds rep,
     post_location w en body = (w', ds, rep) ->
     live (db w') = live (db w) \/
     exists r, validate body = Ok r /\
       (forall x, In x (live (db w')) <->
         (In x (live (db w)) /\ Live.employee_id x <> employee_id r) \/
         x = new_live_row r (now_upsert en)) /\
       (NoDup (map Live.employee_id (live (db w))) ->
        NoDup (map Live.employee_id (live (db w'))))).
  { intros w0 en body w' ds rep H.
    apply post_location_cases in H as (_ & _ & [(-> & _ & _)|(r & V & _ & T & _)]).
    - left. reflexivity.
    - right. exists r. split; [assumption|].
      apply tx_writes_spec in T as (_ & M & N). split; assumption. }
  intro R. split.
  - induction R as [cs|w0 en body w' ds rep R IH H|w0 c ts R IH|w0 c R IH|w0 c R IH]; simpl.
    + constructor.
    + destruct (Step _ _ _ _ _ _ H) as [->|(r & _ & _ & N)]; auto.
    + exact IH.
    + exact IH.
    + exact IH.
  - intros en body w' ds rep H.
    destruct (Step _ _ _ _ _ _ H) as [E|(r & V & M & _)]; [left; assumption|].
    right. exists r. split; assumption.
Qed.

(** C9 (as amended): a body with an own property other than employee_id,
    latitude, longitude, gps_status, timestamp and [__proto__] is answered
    400 by the validation (Joi refuses unknown keys), with no write and no
    broadcast. *)
Theorem post_unknown_key_rejected w en f k v :
  In (k, v) f -> k <> "__proto__" ->
  k <> "employee_id" -> k <> "latitude" -> k <> "longitude" ->
  k <> "gps_status" -> k <> "timestamp" ->
  exists m, post_location w en (JObj f) = (w, [], Reply 400 (fail_body m)).
Proof.
  intros Hin Hp H1 H2 H3 H4 H5. unfold post_location.
  destruct (validate (JObj f)) as [r|m] eqn:V; [|eauto].
  exfalso. apply validate_ok in V as (f' & Ef & _ & _ & _ & _ & _ & Hf).
  injection Ef as <-.
  assert (Hs : is_schema_key k = false).
  { unfold is_schema_key, schema_keys. simpl.
    apply String.eqb_neq in H1, H2, H3, H4, H5. rewrite H1, H2, H3, H4, H5. reflexivity. }
  assert (Ho : In (k, v) (joi_clone_own f)).
  { unfold joi_clone_own. apply filter_In. split; [exact Hin|].
    simpl. apply String.eqb_neq in Hp. rewrite Hp. reflexivity. }
  exact (unknown_key_complete _ _ _ Ho Hs Hf).
Qed.

(** C10: two valid bodies that agree on every property but timestamp
    produce the same tables, the same broadcast and the same reply: the
    timestamp of the report is never used. *)
Theorem timestamp_no_effect w en f1 f2 r1 r2 :
  (forall k, k <> "timestamp" -> lookup k f1 = lookup k f2) ->
  validate (JObj f1) = Ok r1 ->
  validate (JObj f2) = Ok r2 ->
  post_location w en (JObj f1) = post_location w en (JObj f2).
Proof.
  intros Hk V1 V2.
  pose proof (validate_ok _ _ V1) as (g1 & E1 & Ie1 & La1 & Lo1 & G1 & _).
  pose proof (validate_ok _ _ V2) as (g2 & E2 & Ie2 & La2 & Lo2 & G2 & _).
  injection E1 as <-. injection E2 as <-.
  assert (Hp : lookup "__proto__" f1 = lookup "__proto__" f2) by (apply Hk; discriminate).
  assert (L : forall k, k <> "timestamp" -> k <> "__proto__" ->
                lookup k (joi_clone f1) = lookup k (joi_clone f2))
    by (intros k Ht Hq; apply lookup_clone_eq; [exact Hq|apply Hk, Ht|exact Hp]).
  assert (Ce : check_employee_id (joi_clone f1) = check_employee_id (joi_clone f2))
    by (unfold check_employee_id; rewrite L by discriminate; reflexivity).
  assert (Ca : check_latitude (joi_clone f1) = check_latitude (joi_clone f2))
    by (unfold check_latitude; rewrite L by discriminate; reflexivity).
  assert (Co : check_longitude (joi_clone f1) = check_longitude (joi_clone f2))
    by (unfold check_longitude; rewrite L by discriminate; reflexivity).
  assert (Cg : check_gps_status (joi_clone f1) = check_gps_status (joi_clone f2))
    by (unfold check_gps_status; rewrite L by discriminate; reflexivity).
  unfold post_location. rewrite V1, V2.
  destruct r1 as [e1 la1 lo1 g1 t1], r2 as [e2 la2 lo2 g2 t2]; simpl in *.
  rewrite Ce in Ie1; rewrite Ca in La1; rewrite Co in Lo1; rewrite Cg in G1.
  assert (e1 = e2) by congruence; assert (la1 = la2) by congruence;
  assert (lo1 = lo2) by congruence; assert (g1 = g2) by congruence; subst.
  reflexivity.
Qed.

(** ** Further properties of the code *)

(** X1: a report accepted by the schema has an employee id of at least
    1, a latitude within [-90, 90] and a longitude within [-180, 180]. *)
Theorem validate_accepted_bounds body r :
  validate body = Ok r ->
  1 <= employee_id r /\ (-90 <= latitude r <= 90)%Q /\ (-180 <= longitude r <= 180)%Q.
Proof. apply validate_bounds. Qed.

(** X2: a body with exactly the four required properties, an integer
    employee id from 1 to [Number.MAX_SAFE_INTEGER], coordinates within
    their ranges and a status "on" or "off", is accepted with those values
    and no timestamp. *)
Theorem validate_well_formed_accepted e la lo g :
  1 <= e <= 9007199254740991 -> (-90 <= la <= 90)%Q -> (-180 <= lo <= 180)%Q ->
  validate (report_body e la lo (gps_string g)) =
  Ok {| employee_id := e; latitude := la; longitude := lo; gps_status := g; timestamp := None |}.
Proof.
  intros He [La1 La2] [Lo1 Lo2].
  assert (I : is_integer (inject_Z e) = true)
    by (unfold is_integer; rewrite Qred_inject_Z; reflexivity).
  assert (E1 : Qle_bool 1 (inject_Z e) = true)
    by (apply Qle_bool_iff; unfold Qle, inject_Z; simpl; lia).
  assert (Be : joi_number_base "employee_id" (inject_Z e) = Ok (inject_Z e)).
  { apply joi_number_base_ok. rewrite Qabs_pos by (unfold Qle, inject_Z; simpl; lia).
    unfold Qle, inject_Z. simpl. lia. }
  assert (Bla : joi_number_base "latitude" la = Ok la).
  { apply joi_number_base_ok, Qabs_Qle_condition.
    split; [apply (Qle_trans _ (-90)); [discriminate|assumption]
           |apply (Qle_trans _ 90); [assumption|discriminate]]. }
  assert (Blo : joi_number_base "longitude" lo = Ok lo).
  { apply joi_number_base_ok, Qabs_Qle_condition.
    split; [apply (Qle_trans _ (-180)); [discriminate|assumption]
           |apply (Qle_trans _ 180); [assumption|discriminate]]. }
  apply <- Qle_bool_iff in La1. apply <- Qle_bool_iff in La2.
  apply <- Qle_bool_iff in Lo1. apply <- Qle_bool_iff in Lo2.
  unfold validate, report_body.
  change (joi_clone [("employee_id", JNum (inject_Z e)); ("latitude", JNum la);
                     ("longitude", JNum lo); ("gps_status", JStr (gps_string g))])
    with [("employee_id", JNum (inject_Z e)); ("latitude", JNum la);
          ("longitude", JNum lo); ("gps_status", JStr (gps_string g))].
  unfold check_employee_id, check_latitude, check_longitude, joi_min, joi_max.
  unfold lookup. simpl find. cbn beta iota. cbn [joi_number]. rewrite Be. cbn [rbind]. rewrite I. cbn [rbind].
  rewrite E1. cbn [rbind]. rewrite Bla. cbn [rbind]. rewrite La1. cbn [rbind].
  rewrite La2. cbn [rbind]. rewrite Blo. cbn [rbind]. rewrite Lo1. cbn [rbind].
  rewrite Lo2. cbn [rbind]. rewrite Qred_inject_Z.
  destruct g; reflexivity.
Qed.


(** X4: a body without one of the four required properties, neither as
    an own property nor on an object given as its [__proto__], is refused
    with a 400 reply, the world unchanged and nothing broadcast. *)
Theorem post_missing_required_key w en f k :
  In k ["employee_id"; "latitude"; "longitude"; "gps_status"] ->
  lookup k f = None ->
  (forall g, lookup "__proto__" f = Some (JObj g) -> lookup k g = None) ->
  exists m, post_location w en (JObj f) = (w, [], Reply 400 (fail_body m)).
Proof.
  intros Hk Hl Hg. unfold post_location.
  destruct (validate (JObj f)) as [r|m] eqn:V; [|eexists; reflexivity].
  exfalso. apply validate_ok in V as (f' & Ef & He & Hla & Hlo & Hgs & _).
  injection Ef as <-.
  simpl in Hk. destruct Hk as [<-|[<-|[<-|[<-|[]]]]].
  - unfold check_employee_id in He.
    rewrite (lookup_clone_none "employee_id" _ ltac:(discriminate) Hl Hg) in He. discriminate.
  - unfold check_latitude in Hla.
    rewrite (lookup_clone_none "latitude" _ ltac:(discriminate) Hl Hg) in Hla. discriminate.
  - unfold check_longitude in Hlo.
    rewrite (lookup_clone_none "longitude" _ ltac:(discriminate) Hl Hg) in Hlo. discriminate.
  - unfold check_gps_status in Hgs.
    rewrite (lookup_clone_none "gps_status" _ ltac:(discriminate) Hl Hg) in Hgs. discriminate.
Qed.

(** X5: a numeric employee id that is fractional or below 1 is refused
    with a 400 reply, the world unchanged and nothing broadcast. *)
Theorem post_bad_employee_id_rejected w en f q :
  lookup "employee_id" f = Some (JNum q) ->
  is_integer q = false \/ (q < 1)%Q ->
  exists m, post_location w en (JObj f) = (w, [], Reply 400 (fail_body m)).
Proof.
  intros Hl Hq. unfold post_location.
  destruct (validate (JObj f)) as [r|m] eqn:V; [|eexists; reflexivity].
  exfalso. apply validate_ok in V as (f' & Ef & He & _).
  injection Ef as <-.
  unfold check_employee_id, joi_min in He.
  rewrite (lookup_clone_some "employee_id" _ _ ltac:(discriminate) Hl) in He.
  apply rbind_ok in He as (a & Ha & He). apply joi_number_JNum in Ha. subst a.
  simpl in He. destruct (is_integer q) eqn:I; [|discriminate]. simpl in He.
  destruct (Qle_bool 1 q) eqn:L; [|discriminate].
  apply Qle_bool_iff in L. destruct Hq as [Hq|Hq]; [discriminate|].
  apply (Qlt_not_le _ _ Hq L).
Qed.

(** X6: with the connection, every statement and the rollback
    succeeding, an accepted report is committed and answered 200, with one
    history record appended, when its employee id fits the INT column; an
    accepted id above 2147483647 is answered 500 with the JSON error and
    changes nothing. *)
Theorem post_healthy_db w en body r :
  validate body = Ok r -> conn_fails en = false -> (forall s, fails en s = false) ->
  rollback_fails en = false ->
  (employee_id r <= 2147483647 ->
   exists w' ds,
     post_location w en body = (w', ds, Reply 200 (success_body (payload r (node_iso en)))) /\
     history (db w') = (history (db w) ++ [new_hist_row r (now_insert en)])%list) /\
  (2147483647 < employee_id r ->
   post_location w en body = (w, [], Reply 500 (fail_body "Database error"))).
Proof.
  intros V C F Rb. pose proof (validate_bounds body r V) as (He & [La1 La2] & Lo).
  assert (La : (-180 <= latitude r <= 180)%Q).
  { split; [apply (Qle_trans _ (-90)); [discriminate|assumption]
           |apply (Qle_trans _ 90); [assumption|discriminate]]. }
  unfold post_location. rewrite V, C. unfold post_try, tx_writes, sql, upsert_live, insert_history.
  rewrite !F. cbn [rbind]. rewrite (dec_10_6_in_range _ La), (dec_10_6_in_range _ Lo).
  unfold int_col. split.
  - intro Hi.
    destruct ((-2147483648 <=? employee_id r) && (employee_id r <=? 2147483647))%bool eqn:I.
    + destruct (existsb _ _); simpl; eexists; eexists; split; reflexivity.
    + apply andb_false_iff in I as [I|I]; apply Z.leb_gt in I; lia.
  - intro Hi.
    destruct ((-2147483648 <=? employee_id r) && (employee_id r <=? 2147483647))%bool eqn:I.
    + apply andb_true_iff in I as [_ I]. apply Z.leb_le in I. lia.
    + simpl. rewrite Rb. reflexivity.
Qed.

(** X7: a request never edits or removes history records and never
    changes the sockets; either both tables stay as they were (and the
    reply is not 200), or exactly the record of the accepted report is
    appended, with the 200 reply, or with no 200 reply when the [COMMIT]
    was executed but its acknowledgement lost. *)
Theorem post_history_append_only w en body w' ds rep :
  post_location w en body = (w', ds, rep) ->
  clients w' = clients w /\ closing w' = closing w /\
  ((db w' = db w /\ forall b, rep <> Reply 200 b) \/
   (exists r, validate body = Ok r /\
      history (db w') = (history (db w) ++ [new_hist_row r (now_insert en)])%list /\
      (rep = Reply 200 (success_body (payload r (node_iso en))) \/
       (fails en Commit = true /\ commit_applied en = true /\ forall b, rep <> Reply 200 b)))).
Proof.
  intro P. apply post_location_cases in P as (Cl & Co & [(E & _ & N)|(r & V & _ & T & Cs)]).
  - split; [exact Cl|]. split; [exact Co|]. left. split; [exact E|exact N].
  - split; [exact Cl|]. split; [exact Co|]. right. exists r. split; [exact V|].
    split; [apply (proj1 (tx_writes_spec _ _ _ _ T))|].
    destruct Cs as [(_ & _ & ->)|(Fc & A & _ & N)]; [left; reflexivity|right; auto].
Qed.

(** X8: in every reachable world the live table agrees with the history:
    each live row has the coordinates and status of the worker's latest
    history record, and every worker with a history record has a live
    row. *)
Theorem reachable_live_matches_history w :
  reachable w ->
  (forall x, In x (live (db w)) ->
     exists h, latest_record (Live.employee_id x) (history (db w)) = Some h /\
       Hist.employee_id h = Live.employee_id x /\ Hist.latitude h = Live.latitude x /\
       Hist.longitude h = Live.longitude x /\ Hist.gps_status h = Live.gps_status x) /\
  (forall h, In h (history (db w)) ->
     exists x, In x (live (db w)) /\ Live.employee_id x = Hist.employee_id h).
Proof.
  induction 1 as [cs|w en body w' ds rep Hw [IH1 IH2] P|w c ts Hw IH|w c Hw IH|w c Hw IH];
    simpl.
  - split; intros ? [].
  - apply post_location_cases in P as (_ & _ & [(-> & _ & _)|(r & _ & _ & T & _)]);
      [split; assumption|].
    apply tx_writes_ok in T as (_ & _ & _ & s1 & U & I).
    apply upsert_live_spec in U as (Hs1 & Hin & _). apply insert_history_spec in I as (Hl & Hh).
    rewrite Hl, Hh, Hs1. split.
    + intros x Hx. apply Hin in Hx as [[Hx Ne]| ->].
      * rewrite latest_record_snoc. simpl.
        destruct (employee_id r =? Live.employee_id x) eqn:E.
        { apply Z.eqb_eq in E. congruence. }
        apply IH1, Hx.
      * rewrite latest_record_snoc. simpl. rewrite Z.eqb_refl.
        eexists. split; [reflexivity|]. repeat split.
    + intros h Hh'. apply in_app_or in Hh' as [Hh'|[<-|[]]].
      * destruct (IH2 h Hh') as (x & Hx & Ex).
        destruct (Z.eq_dec (Live.employee_id x) (employee_id r)) as [Eq|Ne].
        { exists (new_live_row r (now_upsert en)). split; [apply Hin; right; reflexivity|].
          simpl. congruence. }
        exists x. split; [apply Hin; left; split; assumption|exact Ex].
      * exists (new_live_row r (now_upsert en)). split; [apply Hin; right; reflexivity|].
        reflexivity.
  - exact IH.
  - exact IH.
  - exact IH.
Qed.

(** X9: a successful history read returns only records of the requested
    worker, newest first, and as many as the smaller of the limit and the
    worker's number of records. *)
Theorem history_reply_rows s param qlimit rows :
  get_history s param qlimit (H200 rows) ->
  exists q lim n,
    history_action_of param qlimit = Query (Fin q) lim /\ limit_count lim = Some n /\
    (forall h, In h rows ->
       In h (history s) /\ Qeq_bool (inject_Z (Hist.employee_id h)) q = true) /\
    newest_first rows /\
    List.length rows =
      Nat.min n (List.length (filter (fun h => Qeq_bool (inject_Z (Hist.employee_id h)) q)
                                     (history s))).
Proof.
  unfold get_history. destruct (history_action_of param qlimit) as [|e lim] eqn:A;
    [discriminate|].
  intros [[_ D]|(rows' & S & E)]; [discriminate|]. injection E as <-.
  unfold select_history in S.
  destruct e as [| | |q]; simpl in S; try discriminate.
  destruct (limit_count lim) as [n|] eqn:Lc; [|discriminate].
  destruct S as (l & Pl & Sl & Er). injection Er as ->.
  exists q, lim, n. split; [reflexivity|]. split; [exact Lc|]. split; [|split].
  - intros h Hh.
    assert (Hl : In h l) by (rewrite <- (firstn_skipn n l); apply in_or_app; left; exact Hh).
    apply (Permutation_in _ Pl), filter_In in Hl. exact Hl.
  - apply Sorted_firstn, Sl.
  - rewrite length_firstn, (Permutation_length Pl). reflexivity.
Qed.

(** X10: the limit is per address: within any interleaving of requests
    of several addresses, the outcomes of one address are those of its
    own requests alone. *)
Theorem limiter_per_address st reqs ip :
  map snd (filter (fun p => String.eqb (fst (fst p)) ip) (combine reqs (consume_seq st reqs))) =
  consume_all st ip (map snd (filter (fun p => String.eqb (fst p) ip) reqs)).
Proof.
  revert st. induction reqs as [|[ip' t] rest IH]; intro st; simpl; [reflexivity|].
  destruct (String.eqb ip' ip) eqn:E.
  - apply String.eqb_eq in E. subst ip'. simpl. f_equal. apply IH.
  - rewrite IH. apply consume_all_local. simpl.
    rewrite String.eqb_sym, E. reflexivity.
Qed.


(** X12: through the limiter, the POST requests of an address without a
    live window, made within 60 seconds of the first, reach the handler up
    to the 120th; from the 121st on they are answered 429. *)
Theorem serve_posts_window st w ip t0 en0 body0 rest :
  (forall e, st ip = Some e -> expires_at e <= t0) ->
  (forall t en body, In (t, en, body) rest -> t < t0 + rl_duration_ms) ->
  map handled (serve_posts st w ip ((t0, en0, body0) :: rest)) =
  map (fun i => Z.of_nat i <=? rl_points) (seq 1 (S (List.length rest))).
Proof.
  intros Hst Hr. rewrite serve_posts_consume. simpl map at 1.
  rewrite <- (length_map (fun r => fst (fst r)) rest).
  apply limiter_window; [exact Hst|].
  intros t Ht. apply in_map_iff in Ht as ([[t' en] body] & E & Hin). simpl in E. subst t'.
  apply (Hr t en body Hin).
Qed.

(** X13: [ensureSchema] never alters an existing table, whichever
    statement fails; once it has succeeded, both tables and the view
    exist and running it again changes nothing. *)
Theorem ensure_schema_safe failing c c' res :
  ensure_schema failing c = (c', res) ->
  (forall t, tbl_live c = Some t -> tbl_live c' = Some t) /\
  (forall t, tbl_history c = Some t -> tbl_history c' = Some t) /\
  (res = Ok tt ->
     (exists tl th, tbl_live c' = Some tl /\ tbl_history c' = Some th) /\
     view_latest c' = true /\ ensure_schema failing c' = (c', Ok tt)).
Proof.
  unfold ensure_schema.
  destruct (failing SetMode) eqn:F1;
    [intro H; injection H as <- <-; split; [auto|split; [auto|discriminate]]|].
  destruct (failing CreateLive) eqn:F2;
    [intro H; injection H as <- <-; split; [auto|split; [auto|discriminate]]|].
  destruct (failing CreateHistory) eqn:F3;
    [intro H; injection H as <- <-; simpl;
     split; [intros t E; rewrite E; reflexivity|split; [auto|discriminate]]|].
  destruct (failing CreateView) eqn:F4;
    [intro H; injection H as <- <-; simpl;
     split; [intros t E; rewrite E; reflexivity|
             split; [intros t E; rewrite E; reflexivity|discriminate]]|].
  intro H; injection H as <- <-; simpl.
  split; [intros t E; rewrite E; reflexivity|].
  split; [intros t E; rewrite E; reflexivity|].
  intros _. split; [destruct (tbl_live c), (tbl_history c); eauto|]. split; [reflexivity|].
  simpl. destruct (tbl_live c), (tbl_history c); reflexivity.
Qed.

(** X14: WebSocket deliveries of a request go only to sockets of
    [wss.clients] that are OPEN when it is handled: a socket that connects
    later never receives an earlier location. *)
Theorem post_deliveries_connected w en body w' ds rep c m :
  post_location w en body = (w', ds, rep) -> In (c, m) ds ->
  In c (clients w) /\ is_open w c = true.
Proof.
  intros P Hd.
  apply post_location_cases in P as
    (_ & _ & [(_ & -> & _)|(r & _ & _ & _ & [(_ & -> & _)|(_ & _ & -> & _)])]);
    [destruct Hd| |destruct Hd].
  rewrite broadcast_filter in Hd. apply in_map_iff in Hd as (c' & E & Hc).
  injection E as -> _. apply filter_In in Hc. exact Hc.
Qed.

(** X15: a new socket is greeted with a hello carrying the connection
    time, and then, as long as no later event concerns it, receives the
    event of every accepted report, in the order of the 200 replies, and
    nothing else. *)
Theorem ws_connection_then_events w c ts evs :
  ~ In c (clients w) -> ~ In c (closing w) ->
  forallb (fun ev => negb (touches c ev)) evs = true ->
  exists ps,
    ok_bodies (snd (run w (EvConnect c ts :: evs))) = map success_body ps /\
    deliveries_to c (snd (fst (run w (EvConnect c ts :: evs)))) =
      hello_msg ts :: map location_msg ps.
Proof.
  intros Hc Ho Ht.
  assert (Hc1 : filter (fun x => Nat.eqb x c) (clients (fst (ws_connection w c ts))) = [c]).
  { simpl. rewrite filter_app, filter_eqb_absent by exact Hc. simpl.
    rewrite Nat.eqb_refl. reflexivity. }
  assert (Ho1 : is_open (fst (ws_connection w c ts)) c = true).
  { unfold is_open. simpl. apply negb_true_iff.
    destruct (existsb (Nat.eqb c) (closing w)) eqn:E; [|reflexivity].
    apply existsb_exists in E as (x & Hx & Ex). apply Nat.eqb_eq in Ex. subst x.
    contradiction. }
  destruct (run_keeps_socket c evs _ Hc1 Ho1 Ht) as (ps & O & D).
  exists ps. simpl. simpl in O, D.
  destruct (run _ evs) as [[w2 ds2] rs]. simpl in O, D |- *.
  split; [exact O|]. unfold deliveries_to in D |- *. simpl. rewrite Nat.eqb_refl.
  simpl. f_equal. exact D.
Qed.
End Server.

(** ** Runs of the handler on concrete requests *)

(** C1 (the defect): a failure inside the transaction does not always end
    in the JSON 500 reply.  When the connection is lost during the history
    insert, [await conn.rollback()] in the catch block rejects too, so the
    handler itself rejects and Express answers with its own error page
    (no [{success:false, error:"Database error"}]); when the
    acknowledgement of an executed [COMMIT] is lost, both writes are
    committed while the caller gets no success.  Only when the rollback
    resolves is the reply the JSON 500 with the tables unchanged. *)
Theorem post_tx_failure_not_json :
  post_location iso_any (empty_world [1%nat]) (env_lost 100 100 (fails_at Insert) false)
    (report_body 7 12 77 "on") = (empty_world [1%nat], [], Rejected) /\
  post_location iso_any (empty_world [1%nat]) (env_lost 100 100 (fails_at Commit) true)
    (report_body 7 12 77 "on") =
  (set_db (empty_world [1%nat])
     {| live := [new_live_row report_7 100]; history := [new_hist_row report_7 100] |},
   [], Rejected) /\
  post_location iso_any (empty_world [1%nat]) (env_at 100 100 (fails_at Insert))
    (report_body 7 12 77 "on") =
  (empty_world [1%nat], [], Reply 500 (fail_body "Database error")).
Proof. split; [|split]; reflexivity. Qed.

(** C2 (the defect): after two successful reports of worker 7 in the same
    second (first "on", then "off"), the current row holds "off" but the
    history read with limit 10 may list the older "on" record first:
    [recorded_at] has a resolution of one second and [ORDER BY recorded_at
    DESC] has no tiebreaker.  The stored coordinates are also the
    submitted ones rounded to 6 fractional digits: a latitude of 1e-7 is
    stored as 0. *)
Theorem post_then_read_same_second :
  (exists w1 ds1 b1 w2 ds2 b2,
     post_location iso_any (empty_world []) (env_at 100 100 no_failure)
       (report_body 7 0 0 "on") = (w1, ds1, Reply 200 b1) /\
     post_location iso_any w1 (env_at 100 100 no_failure)
       (report_body 7 0 0 "off") = (w2, ds2, Reply 200 b2) /\
     map Live.gps_status (get_locations (db w2)) = [gps_off] /\
     get_history (db w2) "7" (Some "10")
       (H200 [{| Hist.employee_id := 7; Hist.latitude := 0; Hist.longitude := 0;
                 Hist.gps_status := gps_on; Hist.recorded_at := 100 |};
              {| Hist.employee_id := 7; Hist.latitude := 0; Hist.longitude := 0;
                 Hist.gps_status := gps_off; Hist.recorded_at := 100 |}])) /\
  (exists w' ds b,
     post_location iso_any (empty_world []) (env_at 100 100 no_failure)
       (report_body 7 (1 # 10000000) 0 "on") = (w', ds, Reply 200 b) /\
     map Live.latitude (get_locations (db w')) = [0]).
Proof.
  split.
  - do 6 eexists. split; [reflexivity|]. split; [reflexivity|]. split; [reflexivity|].
    unfold get_history. vm_compute history_action_of. right. eexists. split; [|reflexivity].
    simpl. eexists. split; [apply Permutation_refl|]. split.
    + repeat constructor; simpl; lia.
    + reflexivity.
  - do 3 eexists. split; reflexivity.
Qed.


(** ** Counterexamples and witnesses *)

(** C3: a latitude of 95 is refused. *)
Lemma post_out_of_range_rejected_witness :
  exists m, post_location iso_any (empty_world [1%nat]) (env_at 100 100 no_failure)
              (report_body 7 95 0 "on")
            = (empty_world [1%nat], [], Reply 400 (fail_body m)).
Proof.
  apply (post_out_of_range_rejected iso_any _ _ _ 95).
  left. split; [reflexivity|]. right. reflexivity.
Defined.

(** C4: socket 1 has failed and is CLOSING, socket 2 is OPEN; a report,
    the ['close'] of socket 1 and a second report follow.  Socket 1
    receives nothing, socket 2 receives both events. *)
Lemma broadcast_failure_isolated_witness :
  deliveries_to 1%nat (snd (fst (run iso_any observers_world observer_events))) = [] /\
  (exists ps, ok_bodies (snd (run iso_any observers_world observer_events)) =
                map success_body ps /\
              deliveries_to 2%nat (snd (fst (run iso_any observers_world observer_events))) =
                map location_msg ps) /\
  (forall w0 en body cs cl,
     snd (post_location iso_any {| db := db w0; clients := cs; closing := cl |} en body) =
     snd (post_location iso_any w0 en body)).
Proof.
  apply (broadcast_failure_isolated iso_any observers_world 1%nat 2%nat observer_events).
  - simpl. left. reflexivity.
  - reflexivity.
  - reflexivity.
  - reflexivity.
  - reflexivity.
Defined.

(** C5: the limits 0, -5 and abc are sent to the store as they are. *)
Lemma history_limit_counterexample :
  history_action_of "7" (Some "0") = Query (Fin 7) (Fin 0) /\
  history_action_of "7" (Some "-5") = Query (Fin 7) (Fin (-5)) /\
  history_action_of "7" (Some "abc") = Query (Fin 7) NaN.
Proof. repeat split; vm_compute; reflexivity. Qed.

(** C5 (as amended) for the employee id 7, with the limit 999999. *)
Lemma history_limit_default_and_cap_witness :
  truthy (js_Number "7") = true /\
  history_action_of "7" None = Query (js_Number "7") (Fin 500) /\
  history_action_of "7" (Some "999999") = Query (js_Number "7") (Fin 5000) /\
  (forall qlimit e l st rows,
     history_action_of "7" qlimit = Query e l ->
     select_history st e l (Some rows) -> (List.length rows <= 5000)%nat).
Proof.
  assert (T : truthy (js_Number "7") = true) by reflexivity.
  destruct (history_limit_default_and_cap "7" T) as (H1 & _ & _ & H4 & H5).
  split; [exact T|]. split; [exact H1|]. split; [|exact H5].
  apply (H4 "999999" 999999%Q); [discriminate|reflexivity|reflexivity].
Defined.

(** C7: the two statements read NOW() separately, and the event carries the
    request's latitude and the Node.js clock, not the committed row. *)
Lemma post_stamps_counterexample :
  exists w' ds b,
    post_location iso_any (empty_world []) (env_at 100 101 no_failure)
      (report_body 7 (1 # 10000000) 0 "on") = (w', ds, Reply 200 b) /\
    map Live.last_update (live (db w')) = [100] /\
    map Hist.recorded_at (history (db w')) = [101] /\
    map Live.latitude (live (db w')) = [0] /\
    b = success_body (JObj [("employee_id", JNum 7); ("latitude", JNum (1 # 10000000));
                            ("longitude", JNum 0); ("gps_status", JStr "on");
                            ("last_update", JStr "2026-10-19T08:00:00.000Z")]).
Proof. do 3 eexists. repeat split; reflexivity. Qed.

(** C7 (as amended) at a first report of worker 7, with socket 1 OPEN. *)
Lemma post_success_stamps_and_event_witness :
  exists w' ds b,
    post_location iso_any (empty_world [1%nat]) (env_at 100 101 no_failure)
      (report_body 7 12 77 "on") = (w', ds, Reply 200 b) /\
    (forall x, In x (live (db w')) -> Live.employee_id x = 7 -> Live.last_update x = 100) /\
    history (db w') = [new_hist_row report_7 101] /\
    b = success_body (payload report_7 "2026-10-19T08:00:00.000Z") /\
    ds = [(1%nat, location_msg (payload report_7 "2026-10-19T08:00:00.000Z"))].
Proof.
  do 3 eexists. split; [reflexivity|].
  exact (post_success_stamps_and_event iso_any (empty_world [1%nat])
           (env_at 100 101 no_failure) (report_body 7 12 77 "on") _ _ _
           report_7 eq_refl eq_refl).
Defined.

(** C8 in the world after a first report of worker 7, at a second report
    of worker 7 that replaces the row: the new row has the new
    coordinates, status and time, and is the only row of worker 7. *)
Lemma live_unique_full_replace_witness :
  NoDup (map Live.employee_id (live (db (world_7 iso_any)))) /\
  (live (db (after_post iso_any (world_7 iso_any) (env_at 101 101 no_failure)
                        (report_body 7 13 78 "off"))) = live (db (world_7 iso_any)) \/
   exists r, validate iso_any (report_body 7 13 78 "off") = Ok r /\
     forall x, In x (live (db (after_post iso_any (world_7 iso_any) (env_at 101 101 no_failure)
                                          (report_body 7 13 78 "off")))) <->
       (In x (live (db (world_7 iso_any))) /\ Live.employee_id x <> employee_id r) \/
       x = new_live_row r 101) /\
  live (db (world_7 iso_any)) = [new_live_row report_7 100] /\
  live (db (after_post iso_any (world_7 iso_any) (env_at 101 101 no_failure)
                       (report_body 7 13 78 "off"))) =
    [{| Live.employee_id := 7; Live.latitude := 13000000; Live.longitude := 78000000;
        Live.gps_status := gps_off; Live.last_update := 101 |}].
Proof.
  assert (R : reachable iso_any (world_7 iso_any)).
  { apply (reach_post iso_any (empty_world []) (env_at 100 100 no_failure)
             (report_body 7 12 77 "on") _
             (snd (fst (post_location iso_any (empty_world []) (env_at 100 100 no_failure)
                          (report_body 7 12 77 "on"))))
             (snd (post_location iso_any (empty_world []) (env_at 100 100 no_failure)
                     (report_body 7 12 77 "on")))
             (reach_init iso_any [])).
    reflexivity. }
  destruct (live_unique_full_replace iso_any (world_7 iso_any) R) as [N S].
  split; [exact N|]. split.
  - apply (S (env_at 101 101 no_failure) (report_body 7 13 78 "off") _
             (snd (fst (post_location iso_any (world_7 iso_any) (env_at 101 101 no_failure)
                          (report_body 7 13 78 "off"))))
             (snd (post_location iso_any (world_7 iso_any) (env_at 101 101 no_failure)
                     (report_body 7 13 78 "off")))).
    reflexivity.
  - split; reflexivity.
Defined.

(** C9: an extra property [x] is refused. *)
Lemma post_unknown_key_rejected_witness :
  exists m, post_location iso_any (empty_world []) (env_at 100 100 no_failure)
              (JObj [("employee_id", JNum 7); ("latitude", JNum 12); ("longitude", JNum 77);
                     ("gps_status", JStr "on"); ("x", JNull)])
            = (empty_world [], [], Reply 400 (fail_body m)).
Proof.
  apply (post_unknown_key_rejected iso_any _ _ _ "x" JNull);
    [simpl; tauto | discriminate..].
Defined.

(** C9: an own property [__proto__] is not refused: with an empty object
    as its value the report is accepted, and an object given as
    [__proto__] can even supply a required property (here the
    latitude). *)
Lemma post_proto_key_accepted :
  (exists w' ds b,
     post_location iso_any (empty_world []) (env_at 100 100 no_failure)
       (JObj [("employee_id", JNum 7); ("latitude", JNum 12); ("longitude", JNum 77);
              ("gps_status", JStr "on"); ("__proto__", JObj [])]) = (w', ds, Reply 200 b)) /\
  (exists w' ds b,
     post_location iso_any (empty_world []) (env_at 100 100 no_failure)
       (JObj [("employee_id", JNum 7); ("longitude", JNum 77); ("gps_status", JStr "on");
              ("__proto__", JObj [("latitude", JNum 12)])]) = (w', ds, Reply 200 b)).
Proof. split; do 3 eexists; reflexivity. Qed.

(** C10: the same report with and without a timestamp. *)
Lemma timestamp_no_effect_witness :
  post_location iso_any (empty_world [1%nat]) (env_at 100 101 no_failure)
    (JObj [("employee_id", JNum 7); ("latitude", JNum 12); ("longitude", JNum 77);
           ("gps_status", JStr "on"); ("timestamp", JStr "2026-10-19T08:00:00Z")])
  = post_location iso_any (empty_world [1%nat]) (env_at 100 101 no_failure)
      (JObj [("employee_id", JNum 7); ("latitude", JNum 12); ("longitude", JNum 77);
             ("gps_status", JStr "on")]).
Proof.
  eapply (timestamp_no_effect iso_any); [|reflexivity|reflexivity].
  intros k Hk. unfold lookup. cbn [find fst].
  assert (E : String.eqb "timestamp" k = false) by (apply String.eqb_neq; congruence).
  rewrite E.
  repeat match goal with
  | |- context [String.eqb ?a k] => destruct (String.eqb a k)
  end; reflexivity.
Defined.

(** ** Witnesses of the further properties *)

(** X1 at an accepted report. *)
Lemma validate_accepted_bounds_witness :
  1 <= 7 /\ (-90 <= 12 <= 90)%Q /\ (-180 <= 77 <= 180)%Q.
Proof.
  apply (validate_accepted_bounds iso_any (report_body 7 12 77 "on") report_7).
  reflexivity.
Defined.

(** X2 at worker 7, off, at (12.97, 77.59). *)
Lemma validate_well_formed_accepted_witness :
  validate iso_any (report_body 7 (1297 # 100) (7759 # 100) (gps_string gps_off)) =
  Ok {| employee_id := 7; latitude := 1297 # 100; longitude := 7759 # 100;
        gps_status := gps_off; timestamp := None |}.
Proof.
  apply validate_well_formed_accepted.
  - lia.
  - split; apply Qle_bool_iff; reflexivity.
  - split; apply Qle_bool_iff; reflexivity.
Defined.


(** X4 with a body without latitude whose [__proto__] object has only a
    longitude. *)
Lemma post_missing_required_key_witness :
  exists m, post_location iso_any (empty_world [1%nat]) (env_at 100 100 no_failure)
              (JObj [("employee_id", JNum 7); ("__proto__", JObj [("longitude", JNum 77)])])
            = (empty_world [1%nat], [], Reply 400 (fail_body m)).
Proof.
  apply (post_missing_required_key iso_any _ _ _ "latitude").
  - simpl. right. left. reflexivity.
  - reflexivity.
  - intros g H. vm_compute in H. injection H as <-. reflexivity.
Defined.

(** X5 with the employee id 2.5. *)
Lemma post_bad_employee_id_rejected_witness :
  exists m, post_location iso_any (empty_world [1%nat]) (env_at 100 100 no_failure)
              (JObj [("employee_id", JNum (5 # 2)); ("latitude", JNum 12);
                     ("longitude", JNum 77); ("gps_status", JStr "on")])
            = (empty_world [1%nat], [], Reply 400 (fail_body m)).
Proof.
  apply (post_bad_employee_id_rejected iso_any _ _ _ (5 # 2)).
  - reflexivity.
  - left. reflexivity.
Defined.

(** X6 with a healthy database: worker 7 is committed, worker 3000000000
    (a safe integer, accepted by Joi) does not fit the INT column. *)
Lemma post_healthy_db_witness :
  (exists w' ds,
     post_location iso_any (empty_world [1%nat]) (env_at 100 101 no_failure)
       (report_body 7 12 77 "on") =
     (w', ds, Reply 200 (success_body (payload report_7 "2026-10-19T08:00:00.000Z"))) /\
     history (db w') =
       (history (db (empty_world [1%nat])) ++ [new_hist_row report_7 101])%list) /\
  post_location iso_any (empty_world [1%nat]) (env_at 100 101 no_failure)
    (report_body 3000000000 12 77 "on") =
  (empty_world [1%nat], [], Reply 500 (fail_body "Database error")).
Proof.
  split.
  - apply (proj1 (post_healthy_db iso_any (empty_world [1%nat]) (env_at 100 101 no_failure)
                    (report_body 7 12 77 "on") report_7 eq_refl eq_refl
                    (fun _ => eq_refl) eq_refl)).
    unfold report_7. simpl. lia.
  - apply (proj2 (post_healthy_db iso_any (empty_world [1%nat]) (env_at 100 101 no_failure)
                    (report_body 3000000000 12 77 "on")
                    {| employee_id := 3000000000; latitude := 12; longitude := 77;
                       gps_status := gps_on; timestamp := None |}
                    eq_refl eq_refl (fun _ => eq_refl) eq_refl)).
    simpl. lia.
Defined.

(** X7 at an executed [COMMIT] whose acknowledgement was lost. *)
Lemma post_history_append_only_witness :
  exists w' ds rep,
    post_location iso_any (empty_world [1%nat]) (env_lost 100 100 (fails_at Commit) true)
      (report_body 7 12 77 "on") = (w', ds, rep) /\
    clients w' = clients (empty_world [1%nat]) /\ closing w' = closing (empty_world [1%nat]) /\
    ((db w' = db (empty_world [1%nat]) /\ forall b, rep <> Reply 200 b) \/
     (exists r, validate iso_any (report_body 7 12 77 "on") = Ok r /\
        history (db w') = (history (db (empty_world [1%nat])) ++ [new_hist_row r 100])%list /\
        (rep = Reply 200 (success_body (payload r "2026-10-19T08:00:00.000Z")) \/
         (fails (env_lost 100 100 (fails_at Commit) true) Commit = true /\
          commit_applied (env_lost 100 100 (fails_at Commit) true) = true /\
          forall b, rep <> Reply 200 b)))).
Proof.
  do 3 eexists. split; [reflexivity|].
  eapply (post_history_append_only iso_any (empty_world [1%nat])
           (env_lost 100 100 (fails_at Commit) true) (report_body 7 12 77 "on")).
  reflexivity.
Defined.

(** X8 after two reports of worker 7 and one of worker 8: the live row of
    worker 7 matches the second report of 7. *)
Lemma reachable_live_matches_history_witness :
  exists h, latest_record 7 (history (db (fst (fst
    (post_location iso_any
       (fst (fst (post_location iso_any
          (fst (fst (post_location iso_any (empty_world [])
             (env_at 100 100 no_failure) (report_body 7 12 77 "on"))))
          (env_at 101 101 no_failure) (report_body 8 13 78 "on"))))
       (env_at 102 102 no_failure) (report_body 7 (25 # 2) 77 "off")))))) = Some h /\
    Hist.employee_id h = 7 /\ Hist.latitude h = 12500000 /\
    Hist.longitude h = 77000000 /\ Hist.gps_status h = gps_off.
Proof.
  assert (R : forall w en body, reachable iso_any w ->
                reachable iso_any (fst (fst (post_location iso_any w en body)))).
  { intros w en body Hw.
    apply (reach_post iso_any w en body _ (snd (fst (post_location iso_any w en body)))
             (snd (post_location iso_any w en body)) Hw).
    destruct (post_location iso_any w en body) as [[? ?] ?]. reflexivity. }
  assert (H3 : reachable iso_any (fst (fst
    (post_location iso_any
       (fst (fst (post_location iso_any
          (fst (fst (post_location iso_any (empty_world [])
             (env_at 100 100 no_failure) (report_body 7 12 77 "on"))))
          (env_at 101 101 no_failure) (report_body 8 13 78 "on"))))
       (env_at 102 102 no_failure) (report_body 7 (25 # 2) 77 "off")))))
    by (apply R, R, R; apply (reach_init iso_any [])).
  apply (proj1 (reachable_live_matches_history iso_any _ H3)
           {| Live.employee_id := 7; Live.latitude := 12500000; Live.longitude := 77000000;
              Live.gps_status := gps_off; Live.last_update := 102 |}).
  vm_compute. left. reflexivity.
Defined.

(** X9 at a read of worker 7 with limit 1. *)
Lemma history_reply_rows_witness :
  exists q lim n,
    history_action_of "7" (Some "1") = Query (Fin q) lim /\ limit_count lim = Some n /\
    (forall h, In h [{| Hist.employee_id := 7; Hist.latitude := 0; Hist.longitude := 0;
                        Hist.gps_status := gps_off; Hist.recorded_at := 102 |}] ->
       In h [{| Hist.employee_id := 7; Hist.latitude := 0; Hist.longitude := 0;
                Hist.gps_status := gps_on; Hist.recorded_at := 100 |};
             {| Hist.employee_id := 8; Hist.latitude := 0; Hist.longitude := 0;
                Hist.gps_status := gps_on; Hist.recorded_at := 101 |};
             {| Hist.employee_id := 7; Hist.latitude := 0; Hist.longitude := 0;
                Hist.gps_status := gps_off; Hist.recorded_at := 102 |}] /\
       Qeq_bool (inject_Z (Hist.employee_id h)) q = true) /\
    newest_first [{| Hist.employee_id := 7; Hist.latitude := 0; Hist.longitude := 0;
                     Hist.gps_status := gps_off; Hist.recorded_at := 102 |}] /\
    List.length [{| Hist.employee_id := 7; Hist.latitude := 0; Hist.longitude := 0;
                    Hist.gps_status := gps_off; Hist.recorded_at := 102 |}] =
      Nat.min n (List.length (filter (fun h => Qeq_bool (inject_Z (Hist.employee_id h)) q)
        [{| Hist.employee_id := 7; Hist.latitude := 0; Hist.longitude := 0;
            Hist.gps_status := gps_on; Hist.recorded_at := 100 |};
         {| Hist.employee_id := 8; Hist.latitude := 0; Hist.longitude := 0;
            Hist.gps_status := gps_on; Hist.recorded_at := 101 |};
         {| Hist.employee_id := 7; Hist.latitude := 0; Hist.longitude := 0;
            Hist.gps_status := gps_off; Hist.recorded_at := 102 |}])).
Proof.
  apply (history_reply_rows
           {| live := [];
              history :=
                [{| Hist.employee_id := 7; Hist.latitude := 0; Hist.longitude := 0;
                    Hist.gps_status := gps_on; Hist.recorded_at := 100 |};
                 {| Hist.employee_id := 8; Hist.latitude := 0; Hist.longitude := 0;
                    Hist.gps_status := gps_on; Hist.recorded_at := 101 |};
                 {| Hist.employee_id := 7; Hist.latitude := 0; Hist.longitude := 0;
                    Hist.gps_status := gps_off; Hist.recorded_at := 102 |}] |}
           "7" (Some "1")).
  unfold get_history. vm_compute history_action_of. right. eexists. split; [|reflexivity].
  simpl. exists [{| Hist.employee_id := 7; Hist.latitude := 0; Hist.longitude := 0;
                    Hist.gps_status := gps_off; Hist.recorded_at := 102 |};
                 {| Hist.employee_id := 7; Hist.latitude := 0; Hist.longitude := 0;
                    Hist.gps_status := gps_on; Hist.recorded_at := 100 |}].
  split; [apply perm_swap|]. split.
  - repeat constructor; simpl; lia.
  - reflexivity.
Defined.


(** X12 at 121 ingestions of one address within a second. *)
Lemma serve_posts_window_witness :
  map handled (serve_posts iso_any (fun _ => None) (empty_world [1%nat]) "10.0.0.1"
     ((0, env_at 0 0 no_failure, report_body 7 12 77 "on") ::
      repeat (1000, env_at 1 1 no_failure, report_body 7 12 77 "on") 120)) =
  map (fun i => Z.of_nat i <=? rl_points) (seq 1 121).
Proof.
  apply (serve_posts_window iso_any (fun _ => None) (empty_world [1%nat]) "10.0.0.1" 0
           (env_at 0 0 no_failure) (report_body 7 12 77 "on")
           (repeat (1000, env_at 1 1 no_failure, report_body 7 12 77 "on") 120)).
  - intros e H. discriminate.
  - intros t en body H. apply repeat_spec in H. injection H as -> _ _.
    unfold rl_duration_ms. lia.
Defined.

(** X13 on a database that already holds history: the history table is
    kept. *)
Lemma ensure_schema_safe_witness :
  tbl_history (fst (ensure_schema (fun _ => false)
    {| tbl_live := None; tbl_history := Some [{| Hist.employee_id := 7; Hist.latitude := 0; Hist.longitude := 0;
           Hist.gps_status := gps_on; Hist.recorded_at := 100 |}];
         view_latest := false |})) = Some [{| Hist.employee_id := 7; Hist.latitude := 0; Hist.longitude := 0;
           Hist.gps_status := gps_on; Hist.recorded_at := 100 |}].
Proof.
  apply (proj1 (proj2 (ensure_schema_safe (fun _ => false)
    {| tbl_live := None; tbl_history := Some [{| Hist.employee_id := 7; Hist.latitude := 0; Hist.longitude := 0;
           Hist.gps_status := gps_on; Hist.recorded_at := 100 |}];
         view_latest := false |}
    _ _ (surjective_pairing _)))).
  reflexivity.
Defined.

(** X14 at a delivery to socket 2 while socket 1 is CLOSING. *)
Lemma post_deliveries_connected_witness :
  In 2%nat (clients observers_world) /\ is_open observers_world 2%nat = true.
Proof.
  apply (post_deliveries_connected iso_any observers_world (env_at 100 100 no_failure)
           (report_body 7 12 77 "on")
           (fst (fst (post_location iso_any observers_world (env_at 100 100 no_failure)
                        (report_body 7 12 77 "on"))))
           (snd (fst (post_location iso_any observers_world (env_at 100 100 no_failure)
                        (report_body 7 12 77 "on"))))
           (snd (post_location iso_any observers_world (env_at 100 100 no_failure)
                   (report_body 7 12 77 "on")))
           2%nat (location_msg (payload report_7 "2026-10-19T08:00:00.000Z"))).
  - apply surjective_pairing.
  - vm_compute. left. reflexivity.
Defined.

(** X15 at socket 2 joining socket 1, followed by reports, a database
    failure, a third socket and the closing of socket 1. *)
Lemma ws_connection_then_events_witness :
  exists ps,
    ok_bodies (snd (run iso_any (empty_world [1%nat]) (EvConnect 2%nat 50 :: mixed_events))) =
      map success_body ps /\
    deliveries_to 2%nat (snd (fst (run iso_any (empty_world [1%nat])
                                       (EvConnect 2%nat 50 :: mixed_events)))) =
      hello_msg 50 :: map location_msg ps.
Proof.
  apply (ws_connection_then_events iso_any (empty_world [1%nat]) 2%nat 50 mixed_events).
  - simpl. intros [H|[]]. discriminate.
  - simpl. intros [].
  - reflexivity.
Defined.
